(** * fft_package: windowing, short-time transform and spectrogram

    A shallow embedding of [fft_package/core/windowing.py] and
    [fft_package/core/stft.py], with the parts of Python and numpy they
    call.

    Numbers.  A numpy [float64] is modelled by [float64] below: a real
    number, or one of the IEEE special values +inf, -inf and NaN.
    Arithmetic on finite values is exact: rounding, overflow, underflow
    and the sign of zero are not modelled.  The special values follow
    IEEE 754 as numpy applies it to arrays (an invalid operation gives
    NaN and a warning, never an exception), while Python's own scalar
    division raises [ZeroDivisionError] on a zero divisor.

    [fft_package/core/signal_processing.py] wraps numpy's [np.fft.fft]
    and [np.fft.ifft], modelled by their defining sums; how close their
    composition comes to the identity in binary64 is a matter of rounding
    inside numpy, which an exact model cannot express.  The plotting
    module only drives matplotlib and the file system and is not
    embedded. *)

From Stdlib Require Import Reals Lra Lia ZArith String List Bool.
Import ListNotations.

Local Open Scope Z_scope.

(** ** Python exceptions and results *)

Module Py.

(** The exceptions the package can meet.  A [ValueError] carries its
    message (for numpy's own errors, the fixed part of it: numpy appends
    shapes to some); the messages of the others are not modelled. *)
Inductive exn : Type :=
| ValueError (msg : string)
| ZeroDivisionError
| OverflowError
| IndexError.

Inductive result (A : Type) : Type :=
| Ok (a : A)
| Raise (e : exn).

Arguments Ok {A} a.
Arguments Raise {A} e.

Definition bind {A B} (r : result A) (k : A -> result B) : result B :=
  match r with
  | Ok a => k a
  | Raise e => Raise e
  end.

(** [range(n)]: 0, 1, ..., n-1, empty when [n <= 0]. *)
Definition range (n : Z) : list Z :=
  map Z.of_nat (seq 0 (Z.to_nat n)).

(** [s[start:end]] for [0 <= start] and [0 <= end]: the slice is cut at
    the end of the sequence, it never fails. *)
Definition slice {A} (s : list A) (start stop : Z) : list A :=
  firstn (Z.to_nat (stop - start)) (skipn (Z.to_nat start) s).

End Py.

Export Py.

Notation "x <- r ;; k" := (bind r (fun x => k))
  (at level 61, r at next level, right associativity).

(** ** Float values *)

Module Float64.

Local Open Scope R_scope.

Inductive float64 : Type :=
| Fin (x : R)
| PInf
| NInf
| NaN.

Definition of_Z (z : Z) : float64 := Fin (IZR z).

Definition is_finite (a : float64) : Prop :=
  match a with Fin _ => True | _ => False end.

(** The infinity that has the sign of [x] ([x] is not zero). *)
Definition inf_like (x : R) : float64 :=
  if Rlt_dec 0 x then PInf else NInf.

Definition fneg (a : float64) : float64 :=
  match a with
  | Fin x => Fin (- x)
  | PInf => NInf
  | NInf => PInf
  | NaN => NaN
  end.

Definition fadd (a b : float64) : float64 :=
  match a, b with
  | NaN, _ | _, NaN => NaN
  | Fin x, Fin y => Fin (x + y)
  | PInf, NInf | NInf, PInf => NaN
  | PInf, _ | _, PInf => PInf
  | NInf, _ | _, NInf => NInf
  end.

Definition fsub (a b : float64) : float64 := fadd a (fneg b).

Definition fmul (a b : float64) : float64 :=
  match a, b with
  | NaN, _ | _, NaN => NaN
  | Fin x, Fin y => Fin (x * y)
  | Fin x, PInf | PInf, Fin x =>
      if Req_dec_T x 0 then NaN else inf_like x
  | Fin x, NInf | NInf, Fin x =>
      if Req_dec_T x 0 then NaN else inf_like (- x)
  | PInf, PInf | NInf, NInf => PInf
  | PInf, NInf | NInf, PInf => NInf
  end.

(** Division as numpy does it on arrays: x/0 is an infinity, 0/0 is NaN,
    and nothing is raised. *)
Definition fdiv (a b : float64) : float64 :=
  match a, b with
  | NaN, _ | _, NaN => NaN
  | Fin x, Fin y =>
      if Req_dec_T y 0
      then (if Req_dec_T x 0 then NaN else inf_like x)
      else Fin (x / y)
  | Fin _, PInf | Fin _, NInf => Fin 0
  | PInf, Fin y => if Rlt_dec y 0 then NInf else PInf
  | NInf, Fin y => if Rlt_dec y 0 then PInf else NInf
  | _, _ => NaN
  end.

(** Python's [a / b] on two scalars: a zero divisor raises. *)
Definition py_truediv (a b : float64) : result float64 :=
  match b with
  | Fin y =>
      if Req_dec_T y 0
      then Raise ZeroDivisionError
      else Ok (fdiv a b)
  | _ => Ok (fdiv a b)
  end.

Definition fcos (a : float64) : float64 :=
  match a with Fin x => Fin (cos x) | _ => NaN end.

Definition fsin (a : float64) : float64 :=
  match a with Fin x => Fin (sin x) | _ => NaN end.

(** [np.log10]: -inf at 0, NaN below 0. *)
Definition flog10 (a : float64) : float64 :=
  match a with
  | Fin x =>
      if Rlt_dec 0 x then Fin (ln x / ln 10)
      else if Req_dec_T x 0 then NInf else NaN
  | PInf => PInf
  | NInf | NaN => NaN
  end.

(** Python's [10 ** x] on a float [x]: the power of the C library, and
    an [OverflowError] when [x] is finite and the power leaves the range
    of binary64, which ends at 2^1024. *)
Definition py_pow10 (a : float64) : result float64 :=
  match a with
  | Fin x =>
      if Rle_dec (2 ^ 1024) (Rpower 10 x) then Raise OverflowError
      else Ok (Fin (Rpower 10 x))
  | PInf => Ok PInf
  | NInf => Ok (Fin 0)
  | NaN => Ok NaN
  end.

(** [np.maximum] and [np.minimum]: a NaN operand gives NaN. *)
Definition fmaximum (a b : float64) : float64 :=
  match a, b with
  | NaN, _ | _, NaN => NaN
  | PInf, _ | _, PInf => PInf
  | NInf, c | c, NInf => c
  | Fin x, Fin y => if Rle_dec x y then Fin y else Fin x
  end.

Definition fminimum (a b : float64) : float64 :=
  match a, b with
  | NaN, _ | _, NaN => NaN
  | NInf, _ | _, NInf => NInf
  | PInf, c | c, PInf => c
  | Fin x, Fin y => if Rle_dec x y then Fin x else Fin y
  end.

(** The comparison [a <= b] of floats: false as soon as one is NaN. *)
Definition fle (a b : float64) : Prop :=
  match a, b with
  | NaN, _ | _, NaN => False
  | NInf, _ | _, PInf => True
  | Fin x, Fin y => x <= y
  | _, _ => False
  end.

(** [a < b], false as soon as one is NaN. *)
Definition flt (a b : float64) : Prop :=
  match a, b with
  | NaN, _ | _, NaN => False
  | PInf, _ | _, NInf => False
  | Fin x, Fin y => x < y
  | _, _ => True
  end.

(** Complex values, as a pair of floats. *)
Record complex : Type := Complex { re : float64; im : float64 }.

Definition czero : complex := Complex (Fin 0) (Fin 0).

Definition cadd (a b : complex) : complex :=
  Complex (fadd (re a) (re b)) (fadd (im a) (im b)).

Definition is_finite_c (z : complex) : Prop :=
  is_finite (re z) /\ is_finite (im z).

(** [np.abs] of a complex value: the hypotenuse, which is +inf when a
    part is infinite, even beside a NaN. *)
Definition cabs (z : complex) : float64 :=
  match re z, im z with
  | PInf, _ | NInf, _ | _, PInf | _, NInf => PInf
  | NaN, _ | _, NaN => NaN
  | Fin x, Fin y => Fin (sqrt (x * x + y * y))
  end.

(** [np.pi] and [np.finfo(float).eps]. *)
Definition np_pi : float64 := Fin PI.
Definition eps : float64 := Fin (/ 2 ^ 52).

End Float64.

Export Float64.

(** ** The numpy operations the package calls *)

Module Np.

(** [np.arange(N)]: the integers 0 .. N-1, none when [N <= 0]. *)
Definition arange (N : Z) : list Z := range N.

(** A two-dimensional array: its shape and its rows. *)
Record ndarray2 (A : Type) : Type :=
  Ndarray2 { shape : Z * Z; rows : list (list A) }.

Arguments Ndarray2 {A} shape rows.
Arguments shape {A} n.
Arguments rows {A} n.

(** All the elements, row after row. *)
Definition ravel {A} (m : ndarray2 A) : list A := concat (rows m).

(** An elementwise operation keeps the shape. *)
Definition map2d {A B} (f : A -> B) (m : ndarray2 A) : ndarray2 B :=
  Ndarray2 (shape m) (map (map f) (rows m)).

(** [np.zeros((r, c), dtype=complex)]. *)
Definition zeros (r c : Z) : result (ndarray2 complex) :=
  if (r <? 0) || (c <? 0)
  then Raise (ValueError "negative dimensions are not allowed")
  else Ok (Ndarray2 (r, c)
             (repeat (repeat czero (Z.to_nat c)) (Z.to_nat r))).

(** [a.max()] and [a.min()] over all the elements: a zero-size array has
    no maximum. *)
Definition amax (l : list float64) : result float64 :=
  match l with
  | [] => Raise (ValueError
      "zero-size array to reduction operation maximum which has no identity")
  | x :: t => Ok (fold_left fmaximum t x)
  end.

Definition amin (l : list float64) : result float64 :=
  match l with
  | [] => Raise (ValueError
      "zero-size array to reduction operation minimum which has no identity")
  | x :: t => Ok (fold_left fminimum t x)
  end.

(** [a * b] on one-dimensional arrays: elementwise, a one-element array
    is broadcast, other lengths do not fit. *)
Definition multiply (a b : list float64) : result (list float64) :=
  if (length a =? length b)%nat
  then Ok (map (fun p => fmul (fst p) (snd p)) (combine a b))
  else match a, b with
       | [x], _ => Ok (map (fmul x) b)
       | _, [y] => Ok (map (fun x => fmul x y) a)
       | _, _ => Raise (ValueError "operands could not be broadcast together")
       end.

(** [m[i] = row] for [0 <= i]: the row must have the width of [m], or
    one element, which is broadcast. *)
Fixpoint set_nth {A} (i : nat) (x : A) (l : list A) : option (list A) :=
  match l, i with
  | [], _ => None
  | _ :: t, O => Some (x :: t)
  | y :: t, S j => option_map (cons y) (set_nth j x t)
  end.

Definition set_row (m : ndarray2 complex) (i : Z) (row : list complex)
  : result (ndarray2 complex) :=
  let width := Z.to_nat (snd (shape m)) in
  row' <- (if (length row =? width)%nat then Ok row
           else match row with
                | [z] => Ok (repeat z width)
                | _ => Raise (ValueError "could not broadcast input array")
                end) ;;
  match set_nth (Z.to_nat i) row' (rows m) with
  | Some rs => Ok (Ndarray2 (shape m) rs)
  | None => Raise IndexError
  end.

(** [np.fft.rfft]: the bins 0 .. n/2 of the discrete Fourier transform
    of a real sequence of length n; no transform of an empty sequence. *)
Definition dft_bin (a : list float64) (k : Z) : complex :=
  let n := Z.of_nat (length a) in
  fold_left cadd
    (map (fun p : Z * float64 =>
            let theta := fdiv (fmul (fmul (Fin 2) np_pi) (of_Z (fst p * k)))
                              (of_Z n) in
            Complex (fmul (snd p) (fcos theta))
                    (fneg (fmul (snd p) (fsin theta))))
         (combine (arange n) a))
    czero.

Definition rfft (a : list float64) : result (list complex) :=
  let n := Z.of_nat (length a) in
  if n <? 1
  then Raise (ValueError "Invalid number of FFT data points (0) specified.")
  else Ok (map (dft_bin a) (arange (n / 2 + 1))).

(** [np.fft.rfftfreq(n, d)]: [val = 1.0 / (n * d)] is a Python division,
    then the bins 0 .. n/2 times [val]. *)
Definition rfftfreq (n : Z) (d : float64) : result (list float64) :=
  val <- py_truediv (Fin 1) (fmul (of_Z n) d) ;;
  Ok (map (fun k => fmul (of_Z k) val) (arange (n / 2 + 1))).

(** [np.zeros_like(t)] for an array of floats. *)
Definition zeros_like (t : list float64) : list float64 :=
  map (fun _ => Fin 0) t.

(** [a + b] on two arrays of one length, as [signal += term] needs. *)
Definition add (a b : list float64) : list float64 :=
  map (fun p => fadd (fst p) (snd p)) (combine a b).

(** [np.fft.fft] of a real sequence: all the n bins of the transform. *)
Definition fft (a : list float64) : result (list complex) :=
  let n := Z.of_nat (length a) in
  if n <? 1
  then Raise (ValueError "Invalid number of FFT data points (0) specified.")
  else Ok (map (dft_bin a) (arange n)).

Definition cmul (a b : complex) : complex :=
  Complex (fsub (fmul (re a) (re b)) (fmul (im a) (im b)))
          (fadd (fmul (re a) (im b)) (fmul (im a) (re b))).

(** [np.fft.ifft]: the inverse sum, scaled by [1/n]. *)
Definition idft_bin (a : list complex) (m : Z) : complex :=
  let n := Z.of_nat (length a) in
  let total :=
    fold_left cadd
      (map (fun p : Z * complex =>
              let theta := fdiv (fmul (fmul (Fin 2) np_pi) (of_Z (fst p * m)))
                                (of_Z n) in
              cmul (snd p) (Complex (fcos theta) (fsin theta)))
           (combine (arange n) a))
      czero in
  let fct := fdiv (Fin 1) (of_Z n) in
  Complex (fmul (re total) fct) (fmul (im total) fct).

Definition ifft (a : list complex) : result (list complex) :=
  let n := Z.of_nat (length a) in
  if n <? 1
  then Raise (ValueError "Invalid number of FFT data points (0) specified.")
  else Ok (map (idft_bin a) (arange n)).

(** [np.fft.fftfreq(n, d)]: [val = 1.0 / (n * d)] is a Python division;
    the bins are 0 .. (n-1)/2 then -(n/2) .. -1, times [val]. *)
Definition fftfreq (n : Z) (d : float64) : result (list float64) :=
  val <- py_truediv (Fin 1) (fmul (of_Z n) d) ;;
  let N := (n - 1) / 2 + 1 in
  let results := arange N ++ map (fun j => j - n / 2) (arange (n / 2)) in
  Ok (map (fun k => fmul (of_Z k) val) results).

End Np.

Export Np.

(** ** fft_package/core/windowing.py *)

Module windowing.

Local Open Scope R_scope.

(** [2 * np.pi * n / (N - 1)] and [4 * np.pi * n / (N - 1)]: an array
    divided by the integer [N - 1]. *)
Definition phase (c : R) (n N : Z) : float64 :=
  fdiv (fmul (fmul (Fin c) np_pi) (of_Z n)) (of_Z (N - 1)).

Definition hamming_window (N : Z) : list float64 :=
  map (fun n => fsub (Fin 0.54) (fmul (Fin 0.46) (fcos (phase 2 n N))))
      (arange N).

Definition hanning_window (N : Z) : list float64 :=
  map (fun n => fmul (Fin 0.5) (fsub (Fin 1) (fcos (phase 2 n N))))
      (arange N).

Definition blackman_window (N : Z) : list float64 :=
  map (fun n => fadd (fsub (Fin 0.42) (fmul (Fin 0.5) (fcos (phase 2 n N))))
                     (fmul (Fin 0.08) (fcos (phase 4 n N))))
      (arange N).

Definition apply_window (signal : list float64) (window_type : string)
  : result (list float64) :=
  let N := Z.of_nat (length signal) in
  window <-
    (if (window_type =? "hamming")%string then Ok (hamming_window N)
     else if (window_type =? "hanning")%string then Ok (hanning_window N)
     else if (window_type =? "blackman")%string then Ok (blackman_window N)
     else Raise (ValueError ("Unsupported window type: " ++ window_type))) ;;
  multiply signal window.

End windowing.

Export windowing.

(** ** fft_package/core/stft.py *)

Module stft.

(** The body of [for i in range(num_windows)], over the indices left. *)
Fixpoint stft_loop (signal : list float64) (window_size hop_length : Z)
    (window_type : string) (indices : list Z) (stft_matrix : ndarray2 complex)
  : result (ndarray2 complex) :=
  match indices with
  | [] => Ok stft_matrix
  | i :: rest =>
      let start := i * hop_length in
      let stop := start + window_size in
      let window := slice signal start stop in
      windowed <- apply_window window window_type ;;
      row <- rfft windowed ;;
      stft_matrix' <- set_row stft_matrix i row ;;
      stft_loop signal window_size hop_length window_type rest stft_matrix'
  end.

Definition compute_stft (signal : list float64) (sampling_rate : float64)
    (window_size hop_length : Z) (window_type : string)
  : result (list float64 * list float64 * ndarray2 complex) :=
  if window_size <=? 0 then
    Raise (ValueError "window_size must be positive")
  else if hop_length <=? 0 then
    Raise (ValueError "hop_length must be positive")
  else if hop_length >? window_size then
    Raise (ValueError "hop_length must be less than or equal to window_size")
  else
    let num_samples := Z.of_nat (length signal) in
    let num_windows := 1 + (num_samples - window_size) / hop_length in
    stft_matrix <- zeros num_windows (window_size / 2 + 1) ;;
    d <- py_truediv (Fin 1) sampling_rate ;;
    freqs <- rfftfreq window_size d ;;
    let times :=
      map (fun i => fdiv (of_Z (i * hop_length)) sampling_rate)
          (arange num_windows) in
    stft_matrix <- stft_loop signal window_size hop_length window_type
                     (range num_windows) stft_matrix ;;
    Ok (times, freqs, stft_matrix).

(** [times] and [freqs] are never read: they may be any objects.
    [power_min] is computed and never read either, but the power
    [10**(-db_range/10)] it is made of can raise. *)
Definition compute_spectrogram {T F : Type} (times : T) (freqs : F)
    (stft_matrix : ndarray2 complex) (db_range : float64)
  : result (ndarray2 float64) :=
  let power := map2d (fun z => fmul (cabs z) (cabs z)) stft_matrix in
  power_max <- amax (ravel power) ;;
  scale <- py_pow10 (fdiv (fneg db_range) (Fin 10)) ;;
  let power_min := fmul power_max scale in
  let power_db :=
    map2d (fun p => fmul (Fin 10) (flog10 (fmaximum p eps))) power in
  peak <- amax (ravel power_db) ;;
  let power_db_norm :=
    map2d (fun x => fmaximum x (fsub peak db_range)) power_db in
  Ok power_db_norm.

End stft.

Export stft.

(** ** fft_package/core/signal_processing.py *)

Module signal_processing.

(** One pass of the loop: [signal += amp * np.sin(2 * np.pi * freq * t)]. *)
Definition add_component (t : list float64) (signal : list float64)
    (component : float64 * float64) : list float64 :=
  let freq := fst component in
  let amp := snd component in
  add signal
      (map (fun ti =>
              fmul amp (fsin (fmul (fmul (fmul (Fin 2) np_pi) freq) ti)))
           t).

(** [zip] stops at the shorter of the two lists. *)
Definition generate_signal (t frequencies amplitudes : list float64)
  : list float64 :=
  fold_left (add_component t) (combine frequencies amplitudes) (zeros_like t).

Definition perform_fft (signal : list float64) (sampling_rate : float64)
  : result (list float64 * list float64 * list complex) :=
  let n := Z.of_nat (length signal) in
  fft_result <- fft signal ;;
  let magnitude := map (fun z => fdiv (cabs z) (of_Z n)) fft_result in
  let magnitude := slice magnitude 0 (n / 2) in
  d <- py_truediv (Fin 1) sampling_rate ;;
  freq_full <- fftfreq n d ;;
  let freq := slice freq_full 0 (n / 2) in
  Ok (freq, magnitude, fft_result).

Definition perform_ifft (fft_result : list complex) : result (list float64) :=
  time_domain <- ifft fft_result ;;
  Ok (map re time_domain).

(** [date_str] is [datetime.now().strftime('%Y%m%d')], read from the
    clock by the caller of the model; a missing or empty [function_name]
    is falsy. *)
Definition get_experiment_id (date_str : string) (prefix : string)
    (function_name : option string) : string :=
  match function_name with
  | Some (String c rest) =>
      (prefix ++ "_" ++ date_str ++ "_" ++ String c rest)%string
  | _ => (prefix ++ "_" ++ date_str)%string
  end.

End signal_processing.

Export signal_processing.

(** ** Vocabulary of the properties *)


(** The three window names [apply_window] knows. *)
Definition recognised (window_type : string) : Prop :=
  window_type = "hamming"%string \/ window_type = "hanning"%string \/
  window_type = "blackman"%string.

(** A sampling rate that is neither zero nor infinite. *)
Definition usable_rate (sampling_rate : float64) : Prop :=
  sampling_rate <> Fin 0 /\ sampling_rate <> PInf /\ sampling_rate <> NInf.

(** Every entry of the matrix has finite real and imaginary parts. *)
Definition finite_entries (m : ndarray2 complex) : Prop :=
  Forall is_finite_c (ravel m).


(** Row i of the transform as the loop of [compute_stft] computes it:
    the frame at i * hop_length, windowed, then transformed. *)
Definition frame_transform (signal : list float64)
    (window_size hop_length : Z) (window_type : string) (i : Z)
  : result (list complex) :=
  windowed <- apply_window
                (slice signal (i * hop_length) (i * hop_length + window_size))
                window_type ;;
  rfft windowed.

(** The sum of the absolute amplitudes that [zip] pairs with a frequency. *)
Definition amplitude_sum (components : list (R * R)) : R :=
  fold_right (fun c acc => (Rabs (snd c) + acc)%R) 0%R components.

(** The sum of sinusoids [amplitude * sin(2 pi frequency t)] over a list
    of (frequency, amplitude) pairs, at the time [t], over the reals. *)
Definition superposition (components : list (R * R)) (t : R) : R :=
  fold_right (fun c acc => (snd c * sin (2 * PI * fst c * t) + acc)%R)
             0%R components.

(** The sum of a list of reals, and the real and imaginary parts of bin
    k of the transform of a finite sequence. *)
Definition Rsum (l : list R) : R := fold_right Rplus 0%R l.

Definition turn (n j k : Z) : R := (2 * PI * IZR (j * k) / IZR n)%R.

Definition dft_re (xs : list R) (k : Z) : R :=
  Rsum (map (fun p : Z * R =>
               (snd p * cos (turn (Z.of_nat (length xs)) (fst p) k))%R)
            (combine (arange (Z.of_nat (length xs))) xs)).

Definition dft_im (xs : list R) (k : Z) : R :=
  Rsum (map (fun p : Z * R =>
               (- (snd p * sin (turn (Z.of_nat (length xs)) (fst p) k)))%R)
            (combine (arange (Z.of_nat (length xs))) xs)).

(** The squared modulus of a finite complex value, and the decibels of a
    finite power floored at eps: what [compute_spectrogram] computes on
    finite entries, over the reals. *)
Definition squared_modulus (x y : R) : R :=
  (sqrt (x * x + y * y) * sqrt (x * x + y * y))%R.

Definition decibel (p : R) : R :=
  (10 * (ln (Rmax p (/ 2 ^ 52)) / ln 10))%R.

(** * Properties *)

(** ** Real decisions *)


(** ** Lists, ranges and slices *)

Lemma range_length (n : Z) : length (range n) = Z.to_nat n.
Proof. unfold range. now rewrite length_map, length_seq. Qed.

Lemma nth_error_range (n i : Z) :
  0 <= i < n -> nth_error (range n) (Z.to_nat i) = Some i.
Proof.
  intros Hi. unfold range.
  rewrite nth_error_map, nth_error_seq.
  destruct (Nat.ltb_spec (Z.to_nat i) (Z.to_nat n)) as [_ | Hge]; [| lia].
  simpl. f_equal. lia.
Qed.

Lemma In_range (n i : Z) : In i (range n) -> 0 <= i < n.
Proof.
  unfold range. rewrite in_map_iff. intros (k & <- & Hk).
  apply in_seq in Hk. lia.
Qed.

Lemma range_pos (n : Z) :
  0 < n -> range n = 0 :: map Z.of_nat (seq 1 (Z.to_nat n - 1)).
Proof.
  intros Hn. unfold range.
  destruct (Z.to_nat n) as [| k] eqn:E; [lia |].
  simpl. now rewrite Nat.sub_0_r.
Qed.

Lemma slice_length {A} (s : list A) (start len : Z) :
  0 <= start -> 0 <= len -> start + len <= Z.of_nat (length s) ->
  length (slice s start (start + len)) = Z.to_nat len.
Proof.
  intros Hs Hl Hb. unfold slice.
  rewrite length_firstn, length_skipn.
  replace (start + len - start) with len by lia. lia.
Qed.

(** ** Window generators *)

Section Windows.

Local Open Scope R_scope.

(** With a length of one, the phase of the only sample is 0/0. *)
Lemma phase_length_one (c : R) : phase c 0 1 = NaN.
Proof.
  unfold phase, np_pi, of_Z. simpl.
  destruct (Req_dec_T 0 0) as [_ | H]; [| lra].
  destruct (Req_dec_T (c * PI * 0) 0) as [_ | H]; [reflexivity | lra].
Qed.

(** From a length of two on, every phase is a finite angle. *)
Lemma phase_finite (c : R) (n N : Z) :
  (2 <= N)%Z -> phase c n N = Fin (c * PI * IZR n / IZR (N - 1)).
Proof.
  intros HN. unfold phase, np_pi, of_Z. simpl.
  destruct (Req_dec_T (IZR (N - 1)) 0) as [H | _]; [| reflexivity].
  apply eq_IZR in H. lia.
Qed.




Lemma window_lengths (N : Z) :
  length (hamming_window N) = Z.to_nat N /\
  length (hanning_window N) = Z.to_nat N /\
  length (blackman_window N) = Z.to_nat N.
Proof.
  unfold hamming_window, hanning_window, blackman_window, arange.
  now rewrite !length_map, !range_length.
Qed.

End Windows.



(** C6, on the code.  With N = 1 no generator fails: the division 0/0 of
    arrays gives NaN, and each generator returns a window, of one NaN. *)
Lemma window_length_one_returns :
  hamming_window 1 = [NaN] /\ hanning_window 1 = [NaN] /\
  blackman_window 1 = [NaN].
Proof.
  unfold hamming_window, hanning_window, blackman_window. simpl.
  now rewrite !phase_length_one.
Qed.

(** C6, as amended.  Called with N = 1 each generator returns, without an
    error, a window of one sample whose value is NaN; so the product of a
    one-sample frame with the window of any recognised name is that NaN
    too, and is returned. *)
Theorem window_length_one (x : float64) (window_type : string) :
  recognised window_type ->
  length (hamming_window 1) = 1%nat /\
  length (hanning_window 1) = 1%nat /\
  length (blackman_window 1) = 1%nat /\
  Forall (fun w => w = NaN)
    (hamming_window 1 ++ hanning_window 1 ++ blackman_window 1) /\
  apply_window [x] window_type = Ok [NaN].
Proof.
  intros Hw.
  assert (Hm : forall y, fmul y NaN = NaN) by (now intros []).
  unfold apply_window, hamming_window, hanning_window, blackman_window.
  simpl. rewrite !phase_length_one. simpl.
  repeat split; try (repeat constructor).
  destruct Hw as [-> | [-> | ->]]; simpl; unfold multiply; simpl;
    now rewrite Hm.
Qed.

Lemma window_length_one_witness :
  recognised "hanning" /\
  length (hamming_window 1) = 1%nat /\
  length (hanning_window 1) = 1%nat /\
  length (blackman_window 1) = 1%nat /\
  Forall (fun w => w = NaN)
    (hamming_window 1 ++ hanning_window 1 ++ blackman_window 1) /\
  apply_window [Fin 1] "hanning" = Ok [NaN].
Proof.
  assert (H : recognised "hanning") by (right; left; reflexivity).
  split; [exact H |]. exact (window_length_one (Fin 1) "hanning" H).
Defined.

(** ** The windowing applier *)

Lemma multiply_same_length (a b : list float64) :
  length a = length b ->
  exists c, multiply a b = Ok c /\ length c = length a.
Proof.
  intros H. unfold multiply. rewrite H, Nat.eqb_refl.
  eexists. split; [reflexivity |].
  rewrite length_map, length_combine. lia.
Qed.

Lemma apply_window_recognised (frame : list float64) (window_type : string) :
  recognised window_type ->
  exists w, apply_window frame window_type = Ok w /\ length w = length frame.
Proof.
  intros Hw. unfold apply_window.
  destruct (window_lengths (Z.of_nat (length frame))) as (H1 & H2 & H3).
  rewrite Nat2Z.id in H1, H2, H3.
  destruct Hw as [-> | [-> | ->]]; simpl;
    apply multiply_same_length; congruence.
Qed.

Lemma apply_window_unrecognised (frame : list float64) (window_type : string) :
  ~ recognised window_type ->
  apply_window frame window_type =
  Raise (ValueError ("Unsupported window type: " ++ window_type)).
Proof.
  intros Hw. unfold apply_window, recognised in *.
  destruct (String.eqb_spec window_type "hamming"); [tauto |].
  destruct (String.eqb_spec window_type "hanning"); [tauto |].
  destruct (String.eqb_spec window_type "blackman"); [tauto |].
  reflexivity.
Qed.

(** ** The transform of a frame and the rows of the matrix *)

Lemma rfft_length (a : list float64) :
  a <> [] ->
  exists row, rfft a = Ok row /\
              length row = Z.to_nat (Z.of_nat (length a) / 2 + 1).
Proof.
  intros Ha. unfold rfft.
  destruct (Z.ltb_spec (Z.of_nat (length a)) 1) as [H | _].
  - destruct a; [congruence | simpl in H; lia].
  - eexists. split; [reflexivity |].
    unfold arange. now rewrite length_map, range_length.
Qed.

Lemma set_nth_some {A} (i : nat) (x : A) (l : list A) :
  (i < length l)%nat ->
  exists l', set_nth i x l = Some l' /\ length l' = length l /\
             forall P : A -> Prop, P x -> Forall P l -> Forall P l'.
Proof.
  revert i. induction l as [| y t IH]; intros i Hi; simpl in Hi; [lia |].
  destruct i as [| j]; simpl.
  - eexists. split; [reflexivity |]. split; [reflexivity |].
    intros P Hx Hl. inversion Hl; subst. now constructor.
  - destruct (IH j) as (l' & -> & Hlen & HP); [lia |].
    eexists. split; [reflexivity |]. split; [simpl; lia |].
    intros P Hx Hl. inversion Hl; subst. constructor; auto.
Qed.

Lemma set_row_fits (m : ndarray2 complex) (i : Z) (row : list complex) :
  0 <= i < Z.of_nat (length (rows m)) ->
  length row = Z.to_nat (snd (shape m)) ->
  exists m', set_row m i row = Ok m' /\ shape m' = shape m /\
             length (rows m') = length (rows m) /\
             (Forall (fun r => length r = length row) (rows m) ->
              Forall (fun r => length r = length row) (rows m')).
Proof.
  intros Hi Hrow. unfold set_row. rewrite Hrow, Nat.eqb_refl. simpl.
  destruct (set_nth_some (Z.to_nat i) row (rows m)) as (rs & -> & Hlen & HP);
    [lia |].
  eexists. split; [reflexivity |]. simpl. repeat split; auto.
Qed.

(** ** The short-time transform *)

Section Stft.

Variable signal : list float64.
Variables window_size hop_length : Z.
Variable window_type : string.

(** Every frame of the loop is a full frame when the signal is not
    shorter than a window. *)
Lemma frame_in_signal (i : Z) :
  0 < hop_length -> window_size <= Z.of_nat (length signal) ->
  0 <= i < 1 + (Z.of_nat (length signal) - window_size) / hop_length ->
  0 <= i * hop_length /\
  i * hop_length + window_size <= Z.of_nat (length signal).
Proof.
  intros HH HL Hi.
  set (q := (Z.of_nat (length signal) - window_size) / hop_length) in *.
  assert (Hq : hop_length * q <= Z.of_nat (length signal) - window_size)
    by (apply Z.mul_div_le; lia).
  split; [nia |]. nia.
Qed.

(** The loop over full frames, with a recognised window, fills rows and
    keeps the shape. *)
Lemma stft_loop_full (indices : list Z) (m : ndarray2 complex) :
  recognised window_type -> 0 < window_size ->
  (forall i, In i indices ->
     0 <= i < Z.of_nat (length (rows m)) /\ 0 <= i * hop_length /\
     i * hop_length + window_size <= Z.of_nat (length signal)) ->
  snd (shape m) = window_size / 2 + 1 ->
  Forall (fun r => length r = Z.to_nat (window_size / 2 + 1)) (rows m) ->
  exists m',
    stft_loop signal window_size hop_length window_type indices m = Ok m' /\
    shape m' = shape m /\ length (rows m') = length (rows m) /\
    Forall (fun r => length r = Z.to_nat (window_size / 2 + 1)) (rows m').
Proof.
  intros Hw HW. revert m.
  induction indices as [| i rest IH]; intros m Hin Hshape Hrows; simpl.
  - eexists. repeat split; auto.
  - destruct (Hin i (or_introl eq_refl)) as (Hi & Hs & He).
    destruct (apply_window_recognised
                (slice signal (i * hop_length) (i * hop_length + window_size))
                window_type Hw) as (w & -> & Hlen).
    rewrite slice_length in Hlen by lia. simpl.
    destruct (rfft_length w) as (row & -> & Hrow).
    { intros ->. simpl in Hlen. lia. }
    rewrite Hlen, Z2Nat.id in Hrow by lia. simpl.
    destruct (set_row_fits m i row Hi) as (m1 & -> & Hs1 & Hl1 & Hf1);
      [congruence |].
    simpl. rewrite Hrow in Hf1.
    destruct (IH m1) as (m' & Hrun & Hs' & Hl' & Hf').
    + intros j Hj. rewrite Hl1. apply Hin. now right.
    + congruence.
    + auto.
    + exists m'. rewrite Hrun. repeat split; auto; congruence.
Qed.

(** With an unrecognised window the first frame already fails. *)
Lemma stft_loop_unrecognised (indices : list Z) (m : ndarray2 complex) :
  ~ recognised window_type -> indices <> [] ->
  stft_loop signal window_size hop_length window_type indices m =
  Raise (ValueError ("Unsupported window type: " ++ window_type)).
Proof.
  intros Hw Hne. destruct indices as [| i rest]; [congruence |].
  simpl. now rewrite apply_window_unrecognised.
Qed.

End Stft.

Lemma zeros_shape (r c : Z) :
  0 <= r -> 0 <= c ->
  exists m, zeros r c = Ok m /\ shape m = (r, c) /\
            length (rows m) = Z.to_nat r /\
            Forall (fun row => length row = Z.to_nat c) (rows m).
Proof.
  intros Hr Hc. unfold zeros.
  destruct (Z.ltb_spec r 0); [lia |]. destruct (Z.ltb_spec c 0); [lia |].
  simpl. eexists. split; [reflexivity |]. simpl.
  rewrite repeat_length. repeat split.
  apply Forall_forall. intros row Hrow.
  apply repeat_spec in Hrow. subst. apply repeat_length.
Qed.

(** The frequency axis exists as soon as the sampling rate is usable. *)
Lemma freqs_of_usable_rate (sampling_rate : float64) (window_size : Z) :
  usable_rate sampling_rate -> 0 < window_size ->
  exists d freqs,
    py_truediv (Fin 1) sampling_rate = Ok d /\
    rfftfreq window_size d = Ok freqs /\
    length freqs = Z.to_nat (window_size / 2 + 1).
Proof.
  intros (H0 & Hp & Hn) HW.
  assert (HWr : (0 < IZR window_size)%R) by (now apply IZR_lt).
  destruct sampling_rate as [x | | |]; try congruence.
  - assert (Hx : x <> 0%R) by congruence.
    exists (Fin (1 / x)).
    unfold py_truediv at 1, fdiv.
    destruct (Req_dec_T x 0) as [E | _]; [contradiction |].
    unfold rfftfreq, py_truediv, of_Z. simpl.
    destruct (Req_dec_T (IZR window_size * (1 / x)) 0) as [E | _].
    + exfalso. apply Rmult_integral in E. destruct E as [E | E]; [lra |].
      unfold Rdiv in E. rewrite Rmult_1_l in E.
      now apply (Rinv_neq_0_compat x Hx).
    + simpl. eexists. repeat split.
      unfold arange. now rewrite length_map, range_length.
  - exists NaN. simpl. unfold rfftfreq. simpl. eexists. repeat split.
    unfold arange. now rewrite length_map, range_length.
Qed.

(** A zero sampling rate stops the computation at [1/sampling_rate]. *)
Lemma zero_rate_raises (a : float64) :
  py_truediv a (Fin 0) = Raise ZeroDivisionError.
Proof.
  unfold py_truediv. destruct (Req_dec_T 0 0) as [_ | H]; [reflexivity |].
  now contradiction H.
Qed.

(** What is left of [compute_stft] once the three checks have passed. *)
Lemma compute_stft_checked (signal : list float64) (sampling_rate : float64)
    (window_size hop_length : Z) (window_type : string) :
  0 < window_size -> 0 < hop_length -> hop_length <= window_size ->
  compute_stft signal sampling_rate window_size hop_length window_type =
  let num_windows :=
    1 + (Z.of_nat (length signal) - window_size) / hop_length in
  (stft_matrix <- zeros num_windows (window_size / 2 + 1) ;;
   d <- py_truediv (Fin 1) sampling_rate ;;
   freqs <- rfftfreq window_size d ;;
   stft_matrix <- stft_loop signal window_size hop_length window_type
                    (range num_windows) stft_matrix ;;
   Ok (map (fun i => fdiv (of_Z (i * hop_length)) sampling_rate)
           (arange num_windows), freqs, stft_matrix)).
Proof.
  intros HW HH HHW. unfold compute_stft.
  destruct (Z.leb_spec window_size 0); [lia |].
  destruct (Z.leb_spec hop_length 0); [lia |].
  destruct (Z.gtb_spec hop_length window_size); [lia |].
  reflexivity.
Qed.



(** A signal that holds at least one window, a usable sampling rate and a
    recognised window: the transform is returned with one row per frame. *)
Lemma compute_stft_frames (signal : list float64) (sampling_rate : float64)
    (window_size hop_length : Z) (window_type : string) :
  0 < window_size -> 0 < hop_length -> hop_length <= window_size ->
  window_size <= Z.of_nat (length signal) ->
  usable_rate sampling_rate -> recognised window_type ->
  let num_windows :=
    1 + (Z.of_nat (length signal) - window_size) / hop_length in
  exists freqs m,
    compute_stft signal sampling_rate window_size hop_length window_type
      = Ok (map (fun i => fdiv (of_Z (i * hop_length)) sampling_rate)
                (arange num_windows), freqs, m) /\
    length freqs = Z.to_nat (window_size / 2 + 1) /\
    shape m = (num_windows, window_size / 2 + 1) /\
    length (rows m) = Z.to_nat num_windows /\
    Forall (fun r => length r = Z.to_nat (window_size / 2 + 1)) (rows m).
Proof.
  intros HW HH HHW HL Hsr Hwt nw.
  assert (Hnw : 1 <= nw).
  { subst nw.
    assert (0 <= (Z.of_nat (length signal) - window_size) / hop_length)
      by (apply Z.div_pos; lia).
    lia. }
  assert (Hc : 0 <= window_size / 2 + 1).
  { assert (0 <= window_size / 2) by (apply Z.div_pos; lia). lia. }
  rewrite compute_stft_checked by assumption. fold nw. cbv zeta.
  destruct (zeros_shape nw (window_size / 2 + 1)) as (m0 & -> & Hs0 & Hl0 & Hf0);
    [lia | lia |].
  destruct (freqs_of_usable_rate sampling_rate window_size Hsr HW)
    as (d & freqs & Hd & Hfr & Hfl).
  cbn [bind]. rewrite Hd. cbn [bind]. rewrite Hfr. cbn [bind].
  destruct (stft_loop_full signal window_size hop_length window_type
              (range nw) m0 Hwt HW) as (m & -> & Hs & Hl & Hf).
  - intros i Hi. apply In_range in Hi. rewrite Hl0.
    split; [lia |]. apply frame_in_signal; assumption.
  - now rewrite Hs0.
  - exact Hf0.
  - simpl. exists freqs, m. repeat split; auto; congruence.
Qed.

(** The same call with an unrecognised window fails at the first frame. *)
Lemma compute_stft_unrecognised (signal : list float64)
    (sampling_rate : float64) (window_size hop_length : Z)
    (window_type : string) :
  0 < window_size -> 0 < hop_length -> hop_length <= window_size ->
  window_size <= Z.of_nat (length signal) ->
  usable_rate sampling_rate -> ~ recognised window_type ->
  compute_stft signal sampling_rate window_size hop_length window_type
    = Raise (ValueError ("Unsupported window type: " ++ window_type)).
Proof.
  intros HW HH HHW HL Hsr Hwt.
  set (nw := 1 + (Z.of_nat (length signal) - window_size) / hop_length).
  assert (Hnw : 1 <= nw).
  { subst nw.
    assert (0 <= (Z.of_nat (length signal) - window_size) / hop_length)
      by (apply Z.div_pos; lia).
    lia. }
  assert (Hc : 0 <= window_size / 2 + 1).
  { assert (0 <= window_size / 2) by (apply Z.div_pos; lia). lia. }
  rewrite compute_stft_checked by assumption. fold nw. cbv zeta.
  destruct (zeros_shape nw (window_size / 2 + 1)) as (m0 & -> & _);
    [lia | lia |].
  destruct (freqs_of_usable_rate sampling_rate window_size Hsr HW)
    as (d & freqs & Hd & Hfr & _).
  cbn [bind]. rewrite Hd. cbn [bind]. rewrite Hfr. cbn [bind].
  rewrite stft_loop_unrecognised; [reflexivity | exact Hwt |].
  rewrite range_pos by lia. discriminate.
Qed.

(** A signal shorter than a window by at most one hop: no frame, no call
    of the windowing applier, an empty transform. *)
Lemma compute_stft_no_frame (signal : list float64) (sampling_rate : float64)
    (window_size hop_length : Z) (window_type : string) :
  0 < window_size -> 0 < hop_length -> hop_length <= window_size ->
  window_size - hop_length <= Z.of_nat (length signal) < window_size ->
  usable_rate sampling_rate ->
  1 + (Z.of_nat (length signal) - window_size) / hop_length = 0 /\
  exists freqs,
    compute_stft signal sampling_rate window_size hop_length window_type
      = Ok ([], freqs, Ndarray2 (0, window_size / 2 + 1) []) /\
    length freqs = Z.to_nat (window_size / 2 + 1).
Proof.
  intros HW HH HHW HL Hsr.
  assert (Hq : (Z.of_nat (length signal) - window_size) / hop_length = -1).
  { symmetry.
    apply Z.div_unique
      with (r := Z.of_nat (length signal) - window_size + hop_length); lia. }
  split; [lia |].
  rewrite compute_stft_checked by assumption. rewrite Hq. cbv zeta.
  change (1 + -1) with 0.
  assert (Hc : 0 <= window_size / 2).
  { apply Z.div_pos; lia. }
  unfold zeros. destruct (Z.ltb_spec (window_size / 2 + 1) 0); [lia |].
  destruct (freqs_of_usable_rate sampling_rate window_size Hsr HW)
    as (d & freqs & Hd & Hfr & Hfl).
  cbn. rewrite Hd. cbn [bind]. rewrite Hfr. cbn.
  exists freqs. now split.
Qed.

(** A signal shorter still: the frame count is negative and the matrix
    cannot be allocated. *)
Lemma compute_stft_negative_count (signal : list float64)
    (sampling_rate : float64) (window_size hop_length : Z)
    (window_type : string) :
  0 < window_size -> 0 < hop_length -> hop_length <= window_size ->
  Z.of_nat (length signal) < window_size - hop_length ->
  1 + (Z.of_nat (length signal) - window_size) / hop_length < 0 /\
  compute_stft signal sampling_rate window_size hop_length window_type
    = Raise (ValueError "negative dimensions are not allowed").
Proof.
  intros HW HH HHW HL.
  assert (Hq : (Z.of_nat (length signal) - window_size) / hop_length < -1)
    by (apply Z.div_lt_upper_bound; lia).
  split; [lia |].
  rewrite compute_stft_checked by assumption. cbv zeta.
  unfold zeros.
  destruct (Z.ltb_spec
              (1 + (Z.of_nat (length signal) - window_size) / hop_length) 0);
    [reflexivity | lia].
Qed.

(** With a zero sampling rate and a frame count that is not negative,
    [1/sampling_rate] raises. *)
Lemma compute_stft_zero_rate (signal : list float64)
    (window_size hop_length : Z) (window_type : string) :
  0 < window_size -> 0 < hop_length -> hop_length <= window_size ->
  window_size - hop_length <= Z.of_nat (length signal) ->
  compute_stft signal (Fin 0) window_size hop_length window_type
    = Raise ZeroDivisionError.
Proof.
  intros HW HH HHW HL.
  rewrite compute_stft_checked by assumption. cbv zeta.
  assert (Hq : -1 <= (Z.of_nat (length signal) - window_size) / hop_length)
    by (apply Z.div_le_lower_bound; lia).
  assert (Hc : 0 <= window_size / 2) by (apply Z.div_pos; lia).
  unfold zeros.
  destruct (Z.ltb_spec
              (1 + (Z.of_nat (length signal) - window_size) / hop_length) 0);
    [lia |].
  destruct (Z.ltb_spec (window_size / 2 + 1) 0); [lia |].
  cbn [orb bind]. now rewrite zero_rate_raises.
Qed.

Lemma usable_rate_finite (x : R) : x <> 0%R -> usable_rate (Fin x).
Proof. intros Hx. repeat split; congruence. Qed.

Lemma triangular_unrecognised : ~ recognised "triangular".
Proof. intros [H | [H | H]]; discriminate H. Qed.

Lemma IZR_1000_nonzero : 1000%R <> 0%R.
Proof. lra. Qed.

(** C2, on the code.  The two calls pass the three checks and hold a full
    window, yet no matrix is returned: a zero sampling rate raises
    ZeroDivisionError, an unrecognised window raises ValueError. *)
Lemma compute_stft_shape_fails :
  compute_stft [Fin 1; Fin 2; Fin 3; Fin 4] (Fin 0) 4 2 "hamming"
    = Raise ZeroDivisionError /\
  compute_stft [Fin 1; Fin 2; Fin 3; Fin 4] (Fin 1000) 4 2 "triangular"
    = Raise (ValueError "Unsupported window type: triangular").
Proof.
  split.
  - apply compute_stft_zero_rate; simpl; lia.
  - apply (compute_stft_unrecognised
             [Fin 1; Fin 2; Fin 3; Fin 4] (Fin 1000) 4 2 "triangular");
      try (simpl; lia).
    + apply usable_rate_finite, IZR_1000_nonzero.
    + exact triangular_unrecognised.
Qed.

(** C2, as amended.  For every signal with len(signal) >= window_size,
    parameters passing the three checks, a sampling rate that is neither
    zero nor infinite and a recognised window name, compute_stft returns
    a matrix of shape exactly
    (1 + (len(signal) - window_size) // hop_length, window_size // 2 + 1),
    with that many rows of that width, and time stamp i equal to
    i * hop_length / sampling_rate. *)
Theorem compute_stft_shape (signal : list float64) (sampling_rate : float64)
    (window_size hop_length : Z) (window_type : string) :
  0 < window_size -> 0 < hop_length -> hop_length <= window_size ->
  window_size <= Z.of_nat (length signal) ->
  usable_rate sampling_rate -> recognised window_type ->
  exists times freqs m,
    compute_stft signal sampling_rate window_size hop_length window_type
      = Ok (times, freqs, m) /\
    shape m = (1 + (Z.of_nat (length signal) - window_size) / hop_length,
               window_size / 2 + 1) /\
    Z.of_nat (length (rows m))
      = 1 + (Z.of_nat (length signal) - window_size) / hop_length /\
    Forall (fun r => Z.of_nat (length r) = window_size / 2 + 1) (rows m) /\
    Z.of_nat (length times)
      = 1 + (Z.of_nat (length signal) - window_size) / hop_length /\
    forall i,
      0 <= i < 1 + (Z.of_nat (length signal) - window_size) / hop_length ->
      nth_error times (Z.to_nat i)
        = Some (fdiv (of_Z (i * hop_length)) sampling_rate).
Proof.
  intros HW HH HHW HL Hsr Hwt.
  destruct (compute_stft_frames signal sampling_rate window_size hop_length
              window_type HW HH HHW HL Hsr Hwt)
    as (freqs & m & Hrun & _ & Hs & Hl & Hf).
  set (nw := 1 + (Z.of_nat (length signal) - window_size) / hop_length) in *.
  assert (Hnw : 0 <= nw).
  { subst nw.
    assert (0 <= (Z.of_nat (length signal) - window_size) / hop_length)
      by (apply Z.div_pos; lia).
    lia. }
  assert (Hc : 0 <= window_size / 2) by (apply Z.div_pos; lia).
  eexists _, freqs, m. split; [exact Hrun |].
  split; [exact Hs |]. split; [lia |]. split.
  { eapply Forall_impl; [| exact Hf]. simpl. intros r Hr. lia. }
  unfold arange. rewrite length_map, range_length. split; [lia |].
  intros i Hi. rewrite nth_error_map, nth_error_range by exact Hi.
  reflexivity.
Qed.

Lemma compute_stft_shape_witness :
  exists times freqs m,
    compute_stft [Fin 1; Fin 2; Fin 3; Fin 4; Fin 5] (Fin 1000) 4 1 "hamming"
      = Ok (times, freqs, m) /\
    shape m = (1 + (5 - 4) / 1, 4 / 2 + 1) /\
    Z.of_nat (length (rows m)) = 1 + (5 - 4) / 1 /\
    Forall (fun r => Z.of_nat (length r) = 4 / 2 + 1) (rows m) /\
    Z.of_nat (length times) = 1 + (5 - 4) / 1 /\
    forall i,
      0 <= i < 1 + (5 - 4) / 1 ->
      nth_error times (Z.to_nat i) = Some (fdiv (of_Z (i * 1)) (Fin 1000)).
Proof.
  apply (compute_stft_shape
           [Fin 1; Fin 2; Fin 3; Fin 4; Fin 5] (Fin 1000) 4 1 "hamming");
    try (simpl; lia).
  - apply usable_rate_finite, IZR_1000_nonzero.
  - left. reflexivity.
Defined.

(** C9, on the code.  The signal is one sample short of a window and the
    three checks pass, yet with a zero sampling rate the call fails
    although the frame count is 0, not negative. *)
Lemma compute_stft_undersized_fails :
  1 + (Z.of_nat (length [Fin 1; Fin 2; Fin 3]) - 4) / 2 = 0 /\
  compute_stft [Fin 1; Fin 2; Fin 3] (Fin 0) 4 2 "hamming"
    = Raise ZeroDivisionError.
Proof.
  split; [reflexivity |].
  apply compute_stft_zero_rate; simpl; lia.
Qed.

(** C9, as amended.  For parameters passing the three checks, a sampling
    rate that is neither zero nor infinite and a signal shorter than a
    window: when window_size - hop_length <= len(signal), compute_stft
    returns without error no time stamp and an empty matrix of shape
    (0, window_size // 2 + 1), whatever the window name, recognised or
    not; otherwise the frame count
    1 + (len(signal) - window_size) // hop_length is negative and the
    call fails with a ValueError. *)
Theorem compute_stft_undersized (signal : list float64)
    (sampling_rate : float64) (window_size hop_length : Z)
    (window_type : string) :
  0 < window_size -> 0 < hop_length -> hop_length <= window_size ->
  Z.of_nat (length signal) < window_size ->
  usable_rate sampling_rate ->
  (window_size - hop_length <= Z.of_nat (length signal) ->
   1 + (Z.of_nat (length signal) - window_size) / hop_length = 0 /\
   exists freqs,
     compute_stft signal sampling_rate window_size hop_length window_type
       = Ok ([], freqs, Ndarray2 (0, window_size / 2 + 1) [])) /\
  (Z.of_nat (length signal) < window_size - hop_length ->
   1 + (Z.of_nat (length signal) - window_size) / hop_length < 0 /\
   compute_stft signal sampling_rate window_size hop_length window_type
     = Raise (ValueError "negative dimensions are not allowed")).
Proof.
  intros HW HH HHW HL Hsr. split.
  - intros Hlow.
    destruct (compute_stft_no_frame signal sampling_rate window_size
                hop_length window_type HW HH HHW (conj Hlow HL) Hsr)
      as (Hnw & freqs & Hrun & _).
    split; [exact Hnw |]. now exists freqs.
  - intros Hlow. now apply compute_stft_negative_count.
Qed.

Lemma compute_stft_undersized_witness :
  (1 + (Z.of_nat (length [Fin 1; Fin 2; Fin 3]) - 4) / 2 = 0 /\
   exists freqs,
     compute_stft [Fin 1; Fin 2; Fin 3] (Fin 1000) 4 2 "triangular"
       = Ok ([], freqs, Ndarray2 (0, 4 / 2 + 1) [])) /\
  (1 + (Z.of_nat (length [Fin 1]) - 4) / 2 < 0 /\
   compute_stft [Fin 1] (Fin 1000) 4 2 "triangular"
     = Raise (ValueError "negative dimensions are not allowed")).
Proof.
  assert (Hr : usable_rate (Fin 1000))
    by (apply usable_rate_finite, IZR_1000_nonzero).
  split.
  - apply (compute_stft_undersized
             [Fin 1; Fin 2; Fin 3] (Fin 1000) 4 2 "triangular");
      try (simpl; lia); exact Hr.
  - apply (compute_stft_undersized [Fin 1] (Fin 1000) 4 2 "triangular");
      try (simpl; lia); exact Hr.
Defined.

(** C5, on the code.  With an unrecognised window name compute_stft
    returns an empty transform when the signal holds no frame, reports
    the window size when a check fails, and raises ZeroDivisionError on a
    zero sampling rate: no error names the window. *)
Lemma compute_stft_unrecognised_unreported :
  (exists freqs,
     compute_stft [Fin 1; Fin 2; Fin 3] (Fin 1000) 4 2 "triangular"
       = Ok ([], freqs, Ndarray2 (0, 3) [])) /\
  compute_stft [Fin 1; Fin 2; Fin 3] (Fin 1000) 0 2 "triangular"
    = Raise (ValueError "window_size must be positive") /\
  compute_stft [Fin 1; Fin 2; Fin 3; Fin 4] (Fin 0) 4 2 "triangular"
    = Raise ZeroDivisionError.
Proof.
  split; [| split].
  - destruct (compute_stft_no_frame
                [Fin 1; Fin 2; Fin 3] (Fin 1000) 4 2 "triangular")
      as (_ & freqs & Hrun & _); try (simpl; lia).
    + apply usable_rate_finite, IZR_1000_nonzero.
    + now exists freqs.
  - reflexivity.
  - apply compute_stft_zero_rate; simpl; lia.
Qed.

(** C5, as amended.  For every window name outside hamming, hanning and
    blackman, apply_window raises, on every frame, a ValueError whose
    message ends with the name; compute_stft raises the same error when
    its parameters pass the three checks, the signal holds at least one
    window and the sampling rate is neither zero nor infinite. *)
Theorem unrecognised_window_raises (frame signal : list float64)
    (sampling_rate : float64) (window_size hop_length : Z)
    (window_type : string) :
  ~ recognised window_type ->
  apply_window frame window_type
    = Raise (ValueError ("Unsupported window type: " ++ window_type)) /\
  (0 < window_size -> 0 < hop_length -> hop_length <= window_size ->
   window_size <= Z.of_nat (length signal) ->
   usable_rate sampling_rate ->
   compute_stft signal sampling_rate window_size hop_length window_type
     = Raise (ValueError ("Unsupported window type: " ++ window_type))).
Proof.
  intros Hwt. split.
  - now apply apply_window_unrecognised.
  - intros. now apply compute_stft_unrecognised.
Qed.

Lemma unrecognised_window_raises_witness :
  apply_window [] "triangular"
    = Raise (ValueError "Unsupported window type: triangular") /\
  compute_stft [Fin 1; Fin 2; Fin 3; Fin 4] (Fin 1000) 4 2 "triangular"
    = Raise (ValueError "Unsupported window type: triangular").
Proof.
  destruct (unrecognised_window_raises
              [] [Fin 1; Fin 2; Fin 3; Fin 4] (Fin 1000) 4 2 "triangular"
              triangular_unrecognised) as [Ha Hc].
  split; [exact Ha |].
  apply Hc; try (simpl; lia).
  apply usable_rate_finite, IZR_1000_nonzero.
Defined.

(** C10.  Two calls of compute_spectrogram with the same matrix and the
    same db_range return the same thing, a spectrogram or an error,
    whatever the times and freqs arguments of each call are. *)
Theorem compute_spectrogram_ignores_axes {T1 F1 T2 F2 : Type}
    (times1 : T1) (freqs1 : F1) (times2 : T2) (freqs2 : F2)
    (stft_matrix : ndarray2 complex) (db_range : float64) :
  compute_spectrogram times1 freqs1 stft_matrix db_range =
  compute_spectrogram times2 freqs2 stft_matrix db_range.
Proof. reflexivity. Qed.

(** ** The power of ten in the spectrogram *)

Section PowerOfTen.

Local Open Scope R_scope.

Lemma pow10_below_range : 10 ^ 300 < 2 ^ 1024.
Proof. lra. Qed.

Lemma Rpower_10_bound (y : R) : y <= 300 -> Rpower 10 y < 2 ^ 1024.
Proof.
  intros Hy. apply Rle_lt_trans with (10 ^ 300); [| exact pow10_below_range].
  rewrite <- (Rpower_pow 300) by lra.
  replace (INR 300) with 300 by (rewrite INR_IZR_INZ; reflexivity).
  apply Rle_Rpower; lra.
Qed.

(** [10**(-db_range/10)] overflows only for a db_range far below zero. *)
Lemma py_pow10_returns (db_range : float64) :
  ~ flt db_range (Fin (-3000)) ->
  exists scale, py_pow10 (fdiv (fneg db_range) (Fin 10)) = Ok scale.
Proof.
  destruct db_range as [d | | |]; cbn [flt fneg fdiv]; intros Hd.
  - destruct (Req_dec_T 10 0) as [H | _]; [lra |]. cbn [py_pow10].
    destruct (Rle_dec (2 ^ 1024) (Rpower 10 (- d / 10))) as [Hov | _];
      [| now eexists].
    exfalso. assert (H := Rpower_10_bound (- d / 10)). lra.
  - destruct (Rlt_dec 10 0); [lra |]. now eexists.
  - tauto.
  - now eexists.
Qed.

Lemma py_pow10_nonnegative (db_range : float64) :
  fle (Fin 0) db_range ->
  exists scale, py_pow10 (fdiv (fneg db_range) (Fin 10)) = Ok scale.
Proof.
  intros Hd. apply py_pow10_returns.
  destruct db_range; cbn [fle flt] in *; try tauto. lra.
Qed.

End PowerOfTen.

(** ** Maxima and minima of arrays of finite values *)

Section FiniteArrays.

Local Open Scope R_scope.

Lemma fmaximum_finite (a b : R) : fmaximum (Fin a) (Fin b) = Fin (Rmax a b).
Proof. unfold fmaximum, Rmax. now destruct (Rle_dec a b). Qed.


Lemma amax_finite (x : R) (t : list R) :
  amax (map Fin (x :: t)) = Ok (Fin (fold_left Rmax t x)).
Proof.
  cbn [map amax amin]. f_equal. revert x.
  induction t as [| y t IH]; intros x; cbn [map fold_left]; [reflexivity |].
  now rewrite fmaximum_finite, IH.
Qed.


Lemma amax_finite_cons (x : R) (t : list R) :
  amax (Fin x :: map Fin t) = Ok (Fin (fold_left Rmax t x)).
Proof. exact (amax_finite x t). Qed.


(** A monotone function commutes with the maximum. *)
Lemma Rmax_monotone (f : R -> R) (a b : R) :
  (forall u v, u <= v -> f u <= f v) -> f (Rmax a b) = Rmax (f a) (f b).
Proof.
  intros Hf. unfold Rmax.
  destruct (Rle_dec a b) as [Hab | Hab];
    destruct (Rle_dec (f a) (f b)) as [Hfab | Hfab]; try reflexivity.
  - exfalso. apply Hfab, Hf, Hab.
  - apply Rle_antisym; [exact Hfab |]. apply Hf. lra.
Qed.

Lemma fold_Rmax_monotone (f : R -> R) (x : R) (t : list R) :
  (forall u v, u <= v -> f u <= f v) ->
  fold_left Rmax (map f t) (f x) = f (fold_left Rmax t x).
Proof.
  intros Hf. revert x.
  induction t as [| y t IH]; intros x; simpl; [reflexivity |].
  now rewrite <- Rmax_monotone, IH.
Qed.


(** Decibels grow with the power, and are those of the code. *)
Lemma decibel_monotone (p q : R) : p <= q -> decibel p <= decibel q.
Proof.
  intros Hpq. unfold decibel.
  assert (He : 0 < / 2 ^ 52) by (apply Rinv_0_lt_compat; lra).
  assert (Hp : 0 < Rmax p (/ 2 ^ 52))
    by (apply Rlt_le_trans with (/ 2 ^ 52); [exact He | apply Rmax_r]).
  assert (Hm : Rmax p (/ 2 ^ 52) <= Rmax q (/ 2 ^ 52)).
  { apply Rmax_lub; [| apply Rmax_r].
    apply Rle_trans with q; [exact Hpq | apply Rmax_l]. }
  assert (Hl : ln (Rmax p (/ 2 ^ 52)) <= ln (Rmax q (/ 2 ^ 52))).
  { destruct Hm as [Hlt | ->]; [| lra].
    left. now apply ln_increasing. }
  assert (H10 : 0 < ln 10).
  { rewrite <- ln_1. apply ln_increasing; lra. }
  apply Rmult_le_compat_l; [lra |].
  unfold Rdiv. apply Rmult_le_compat_r; [| exact Hl].
  left. now apply Rinv_0_lt_compat.
Qed.

Lemma power_db_finite (p : R) :
  fmul (Fin 10) (flog10 (fmaximum (Fin p) eps)) = Fin (decibel p).
Proof.
  unfold eps. rewrite fmaximum_finite. unfold flog10, decibel.
  assert (He : 0 < / 2 ^ 52) by (apply Rinv_0_lt_compat; lra).
  assert (Hp : 0 < Rmax p (/ 2 ^ 52))
    by (apply Rlt_le_trans with (/ 2 ^ 52); [exact He | apply Rmax_r]).
  destruct (Rlt_dec 0 (Rmax p (/ 2 ^ 52))) as [_ | H]; [reflexivity |].
  contradiction.
Qed.

Lemma power_finite (z : complex) :
  is_finite_c z ->
  exists x y, fmul (cabs z) (cabs z) = Fin (squared_modulus x y).
Proof.
  destruct z as [[x | | |] [y | | |]]; unfold is_finite_c; simpl;
    intros [Hr Hi]; try contradiction.
  now exists x, y.
Qed.

(** On finite entries the powers in decibels are finite too. *)
Lemma powers_finite (zs : list complex) :
  Forall is_finite_c zs ->
  exists ps : list R,
    map (fun z => fmul (cabs z) (cabs z)) zs = map Fin ps /\
    length ps = length zs.
Proof.
  induction 1 as [| z zs Hz _ (ps & Hps & Hlen)].
  - now exists [].
  - destruct (power_finite z Hz) as (x & y & Hxy).
    exists (squared_modulus x y :: ps). simpl.
    now rewrite Hxy, Hps, Hlen.
Qed.

End FiniteArrays.

Lemma ravel_map2d {A B} (f : A -> B) (m : ndarray2 A) :
  ravel (map2d f m) = map f (ravel m).
Proof. unfold ravel, map2d. simpl. symmetry. apply concat_map. Qed.

(** ** The spectrogram of a matrix of finite entries *)

Section Spectrogram.

Local Open Scope R_scope.

Lemma lower_bound_exists (l : list R) : exists c, Forall (fun v => c <= v) l.
Proof.
  induction l as [| x l (c & Hc)].
  - now exists 0.
  - exists (Rmin c x). constructor; [apply Rmin_r |].
    eapply Forall_impl; [| exact Hc]. simpl. intros v Hv.
    apply Rle_trans with c; [apply Rmin_l | exact Hv].
Qed.

(** The floor [peak - db_range] acts on finite decibels as a real floor c
    with [peak - c <= db_range]. *)
Lemma clamp_finite (l : list R) (peak : R) (db_range : float64) :
  fle (Fin 0) db_range ->
  exists c,
    c <= peak /\ fle (Fin (peak - c)) db_range /\
    map (fun v => fmaximum (Fin v) (fsub (Fin peak) db_range)) l
      = map Fin (map (fun v => Rmax v c) l).
Proof.
  destruct db_range as [d | | |]; simpl; intros Hd; try contradiction.
  - exists (peak + - d). split; [lra |]. split; [lra |].
    rewrite map_map. apply map_ext. intros v.
    unfold Rmax. now destruct (Rle_dec v (peak + - d)).
  - destruct (lower_bound_exists l) as (c & Hc).
    exists (Rmin c peak). split; [apply Rmin_r |]. split; [exact I |].
    rewrite map_map. apply map_ext_in. intros v Hv. f_equal.
    rewrite Forall_forall in Hc. specialize (Hc v Hv).
    rewrite Rmax_left; [reflexivity |].
    apply Rle_trans with c; [apply Rmin_l | exact Hc].
Qed.

Context {T F : Type} (times : T) (freqs : F).

Lemma spectrogram_clamped (stft_matrix : ndarray2 complex)
    (db_range : float64) :
  finite_entries stft_matrix -> ravel stft_matrix <> [] ->
  fle (Fin 0) db_range ->
  exists p ps c output,
    map (fun z => fmul (cabs z) (cabs z)) (ravel stft_matrix)
      = map Fin (p :: ps) /\
    compute_spectrogram times freqs stft_matrix db_range = Ok output /\
    shape output = shape stft_matrix /\
    c <= decibel (fold_left Rmax ps p) /\
    fle (Fin (decibel (fold_left Rmax ps p) - c)) db_range /\
    ravel output = map Fin (map (fun v => Rmax v c) (map decibel (p :: ps))).
Proof.
  intros Hfin Hne Hdb.
  destruct (powers_finite (ravel stft_matrix) Hfin) as (l & Hl & Hlen).
  destruct l as [| p ps].
  { destruct (ravel stft_matrix); [congruence | discriminate Hlen]. }
  set (peak := decibel (fold_left Rmax ps p)).
  destruct (clamp_finite (map decibel (p :: ps)) peak db_range Hdb)
    as (c & Hc & Hrange & Hclamp).
  assert (Hdbs :
    map (fun q => fmul (Fin 10) (flog10 (fmaximum q eps))) (map Fin (p :: ps))
      = map Fin (map decibel (p :: ps))).
  { rewrite !map_map. apply map_ext. intros q. apply power_db_finite. }
  destruct (py_pow10_nonnegative db_range Hdb) as (scale & Hscale).
  exists p, ps, c. unfold compute_spectrogram.
  rewrite ravel_map2d, Hl, amax_finite. cbn [bind].
  rewrite Hscale. cbn [bind].
  rewrite !ravel_map2d, Hl, Hdbs.
  change (map decibel (p :: ps)) with (decibel p :: map decibel ps) at 1.
  rewrite amax_finite, fold_Rmax_monotone by exact decibel_monotone.
  cbn [bind]. fold peak.
  eexists. split; [reflexivity |]. split; [reflexivity |].
  split; [reflexivity |]. split; [exact Hc |]. split; [exact Hrange |].
  rewrite !ravel_map2d, Hl, Hdbs.
  rewrite <- Hclamp. now rewrite map_map.
Qed.

(** The largest value of the clamped decibels is the peak. *)
Lemma clamped_maximum (p : R) (ps : list R) (c : R) :
  c <= decibel (fold_left Rmax ps p) ->
  amax (map Fin (map (fun v => Rmax v c) (map decibel (p :: ps))))
    = Ok (Fin (decibel (fold_left Rmax ps p))).
Proof.
  intros Hc. cbn [map]. rewrite amax_finite_cons.
  rewrite (fold_Rmax_monotone (fun v => Rmax v c)).
  - rewrite fold_Rmax_monotone by exact decibel_monotone.
    now rewrite Rmax_left.
  - intros u v Huv. apply Rmax_lub; [| apply Rmax_r].
    apply Rle_trans with v; [exact Huv | apply Rmax_l].
Qed.


End Spectrogram.

Section SpectrogramClaims.

Local Open Scope R_scope.


Lemma fle_finite_below (a b : R) (d : float64) :
  a <= b -> fle (Fin b) d -> fle (Fin a) d.
Proof. destruct d; simpl; try tauto. lra. Qed.

Lemma ln_above_one (x : R) : 1 < x -> 0 < ln x.
Proof. intros Hx. rewrite <- ln_1. apply ln_increasing; lra. Qed.













End SpectrogramClaims.

(** * Further properties of the package *)

(** ** Windows: lengths, end points, bounds *)

Section WindowValues.

Local Open Scope R_scope.

(** The cosine of a phase is a finite value between -1 and 1 from a
    length of two on. *)
Lemma cos_phase_bounded (c : R) (n N : Z) :
  (2 <= N)%Z -> exists v, fcos (phase c n N) = Fin v /\ -1 <= v <= 1.
Proof.
  intros HN. rewrite phase_finite by exact HN. simpl.
  eexists. split; [reflexivity |]. apply COS_bound.
Qed.

Lemma cos_phase_first (c : R) (N : Z) :
  (2 <= N)%Z -> fcos (phase c 0 N) = Fin 1.
Proof.
  intros HN. rewrite phase_finite by exact HN. simpl. f_equal.
  replace (c * PI * 0 / IZR (N - 1)) with 0
    by (unfold Rdiv; ring).
  exact cos_0.
Qed.

Lemma cos_phase_last (N : Z) :
  (2 <= N)%Z -> fcos (phase 2 (N - 1) N) = Fin 1.
Proof.
  intros HN. rewrite phase_finite by exact HN. simpl. f_equal.
  assert (Hd : IZR (N - 1) <> 0) by (intros H; apply eq_IZR in H; lia).
  replace (2 * PI * IZR (N - 1) / IZR (N - 1)) with (2 * PI)
    by (field; exact Hd).
  exact cos_2PI.
Qed.

End WindowValues.

(** X1.  Each generator returns exactly N samples, none when N <= 0, and
    apply_window with a recognised name returns as many samples as the
    frame holds, none for an empty frame. *)
Theorem window_sample_counts (N : Z) (frame : list float64)
    (window_type : string) :
  recognised window_type ->
  length (hamming_window N) = Z.to_nat N /\
  length (hanning_window N) = Z.to_nat N /\
  length (blackman_window N) = Z.to_nat N /\
  exists windowed,
    apply_window frame window_type = Ok windowed /\
    length windowed = length frame.
Proof.
  intros Hw. destruct (window_lengths N) as (H1 & H2 & H3).
  repeat split; try assumption.
  now apply apply_window_recognised.
Qed.

Lemma window_sample_counts_witness :
  length (hamming_window (-3)) = Z.to_nat (-3) /\
  length (hanning_window (-3)) = Z.to_nat (-3) /\
  length (blackman_window (-3)) = Z.to_nat (-3) /\
  exists windowed,
    apply_window [Fin 1; Fin 2; Fin 3] "blackman" = Ok windowed /\
    length windowed = length [Fin 1; Fin 2; Fin 3].
Proof.
  apply (window_sample_counts (-3) [Fin 1; Fin 2; Fin 3] "blackman").
  right; right. reflexivity.
Defined.

(** X2.  From a length of two on, the first and the last sample of the
    Hanning window are 0 (in exact arithmetic). *)
Theorem hanning_end_points (N : Z) :
  2 <= N ->
  nth_error (hanning_window N) 0 = Some (Fin 0) /\
  nth_error (hanning_window N) (Z.to_nat (N - 1)) = Some (Fin 0).
Proof.
  intros HN. unfold hanning_window, arange.
  change 0%nat with (Z.to_nat 0) at 1.
  rewrite !nth_error_map, !nth_error_range by lia. simpl.
  rewrite cos_phase_first, cos_phase_last by exact HN. simpl.
  split; do 2 f_equal; lra.
Qed.

Lemma hanning_end_points_witness :
  nth_error (hanning_window 5) 0 = Some (Fin 0) /\
  nth_error (hanning_window 5) (Z.to_nat (5 - 1)) = Some (Fin 0).
Proof. apply (hanning_end_points 5). lia. Defined.

(** X3.  From a length of two on, every Hamming sample lies in
    [0.08, 1], every Hanning sample in [0, 1], and every Blackman sample
    is at most 1 in absolute value (in exact arithmetic). *)
Theorem window_value_bounds (N : Z) :
  2 <= N ->
  Forall (fun v => exists w, v = Fin w /\ (0.08 <= w <= 1)%R)
         (hamming_window N) /\
  Forall (fun v => exists w, v = Fin w /\ (0 <= w <= 1)%R)
         (hanning_window N) /\
  Forall (fun v => exists w, v = Fin w /\ (Rabs w <= 1)%R)
         (blackman_window N).
Proof.
  intros HN. unfold hamming_window, hanning_window, blackman_window.
  repeat split; apply Forall_forall; intros v Hv;
    apply in_map_iff in Hv; destruct Hv as (n & <- & _);
    destruct (cos_phase_bounded 2 n N HN) as (c2 & -> & Hc2);
    try (destruct (cos_phase_bounded 4 n N HN) as (c4 & -> & Hc4));
    simpl; eexists; (split; [reflexivity |]);
    try (apply Rabs_le); lra.
Qed.

Lemma window_value_bounds_witness :
  Forall (fun v => exists w, v = Fin w /\ (0.08 <= w <= 1)%R)
         (hamming_window 8) /\
  Forall (fun v => exists w, v = Fin w /\ (0 <= w <= 1)%R)
         (hanning_window 8) /\
  Forall (fun v => exists w, v = Fin w /\ (Rabs w <= 1)%R)
         (blackman_window 8).
Proof. apply (window_value_bounds 8). lia. Defined.

(** ** Windowing never amplifies *)

Section Attenuation.

Local Open Scope R_scope.

Lemma window_within_unit (N : Z) :
  (2 <= N)%Z ->
  Forall (fun v => exists w, v = Fin w /\ Rabs w <= 1) (hamming_window N) /\
  Forall (fun v => exists w, v = Fin w /\ Rabs w <= 1) (hanning_window N) /\
  Forall (fun v => exists w, v = Fin w /\ Rabs w <= 1) (blackman_window N).
Proof.
  intros HN. unfold hamming_window, hanning_window, blackman_window.
  repeat split; apply Forall_forall; intros v Hv;
    apply in_map_iff in Hv; destruct Hv as (n & <- & _);
    destruct (cos_phase_bounded 2 n N HN) as (c2 & -> & Hc2);
    try (destruct (cos_phase_bounded 4 n N HN) as (c4 & -> & Hc4));
    simpl; eexists; (split; [reflexivity |]); apply Rabs_le; lra.
Qed.

Lemma weighted_no_larger (xs ws : list float64) :
  Forall is_finite xs ->
  Forall (fun v => exists w, v = Fin w /\ Rabs w <= 1) ws ->
  length xs = length ws ->
  Forall2 (fun x y => exists a b, x = Fin a /\ y = Fin b /\ Rabs b <= Rabs a)
          xs (map (fun p => fmul (fst p) (snd p)) (combine xs ws)).
Proof.
  intros Hx. revert ws.
  induction Hx as [| x xs Hfx _ IH]; intros ws Hw Hlen;
    destruct ws as [| w ws]; try discriminate Hlen; simpl.
  - constructor.
  - inversion Hw as [| ? ? (r & -> & Hr) Hws]; subst.
    destruct x as [a | | |]; try contradiction.
    constructor.
    + exists a, (a * r). repeat split.
      rewrite Rabs_mult. rewrite <- (Rmult_1_r (Rabs a)) at 2.
      apply Rmult_le_compat_l; [apply Rabs_pos | exact Hr].
    + apply IH; [exact Hws | now injection Hlen].
Qed.

End Attenuation.

(** X4.  On a frame of at least two finite samples, apply_window with a
    recognised name returns finite samples, none larger in absolute value
    than the sample it comes from (in exact arithmetic). *)
Theorem apply_window_attenuates (frame : list float64)
    (window_type : string) :
  recognised window_type -> (2 <= length frame)%nat ->
  Forall is_finite frame ->
  exists windowed,
    apply_window frame window_type = Ok windowed /\
    Forall2 (fun x y => exists a b,
               x = Fin a /\ y = Fin b /\ (Rabs b <= Rabs a)%R)
            frame windowed.
Proof.
  intros Hw Hlen Hfin.
  destruct (window_within_unit (Z.of_nat (length frame))) as (H1 & H2 & H3);
    [lia |].
  destruct (window_lengths (Z.of_nat (length frame))) as (L1 & L2 & L3).
  rewrite Nat2Z.id in L1, L2, L3.
  unfold apply_window, multiply.
  destruct Hw as [-> | [-> | ->]]; cbn [String.eqb Ascii.eqb Bool.eqb bind];
    [rewrite L1 | rewrite L2 | rewrite L3]; rewrite Nat.eqb_refl;
    eexists; (split; [reflexivity |]);
    apply weighted_no_larger; auto.
Qed.

Lemma apply_window_attenuates_witness :
  exists windowed,
    apply_window [Fin 3; Fin (-2); Fin 5] "hamming" = Ok windowed /\
    Forall2 (fun x y => exists a b,
               x = Fin a /\ y = Fin b /\ (Rabs b <= Rabs a)%R)
            [Fin 3; Fin (-2); Fin 5] windowed.
Proof.
  apply (apply_window_attenuates [Fin 3; Fin (-2); Fin 5] "hamming").
  - left. reflexivity.
  - simpl. lia.
  - repeat constructor.
Defined.

(** ** The rows of the short-time transform *)

Lemma set_nth_spec {A} (i : nat) (x : A) (l l' : list A) :
  set_nth i x l = Some l' ->
  nth_error l' i = Some x /\
  forall j, j <> i -> nth_error l' j = nth_error l j.
Proof.
  revert i l'. induction l as [| y t IH]; intros i l' H;
    [destruct i; discriminate H |].
  destruct i as [| k]; simpl in H.
  - injection H as <-. split; [reflexivity |].
    intros [| j] Hj; [congruence | reflexivity].
  - destruct (set_nth k x t) as [t' |] eqn:E; [| discriminate H].
    injection H as <-. destruct (IH k t' E) as (Hk & Hother).
    split; [exact Hk |].
    intros [| j] Hj; [reflexivity |]. simpl. apply Hother. congruence.
Qed.

Lemma set_row_spec (m : ndarray2 complex) (i : Z) (row : list complex) :
  0 <= i < Z.of_nat (length (rows m)) ->
  length row = Z.to_nat (snd (shape m)) ->
  exists m', set_row m i row = Ok m' /\ shape m' = shape m /\
             length (rows m') = length (rows m) /\
             nth_error (rows m') (Z.to_nat i) = Some row /\
             forall j, j <> Z.to_nat i ->
                       nth_error (rows m') j = nth_error (rows m) j.
Proof.
  intros Hi Hrow. unfold set_row. rewrite Hrow, Nat.eqb_refl. cbn [bind].
  destruct (set_nth_some (Z.to_nat i) row (rows m)) as (rs & E & Hlen & _);
    [lia |].
  rewrite E. destruct (set_nth_spec _ _ _ _ E) as (Hat & Hother).
  eexists. split; [reflexivity |]. simpl. repeat split; auto.
Qed.

Section StftRows.

Variable signal : list float64.
Variables window_size hop_length : Z.
Variable window_type : string.

(** A full frame with a recognised window has a transform, of
    window_size / 2 + 1 bins. *)
Lemma frame_transform_full (i : Z) :
  recognised window_type -> 0 < window_size ->
  0 <= i * hop_length ->
  i * hop_length + window_size <= Z.of_nat (length signal) ->
  exists row,
    frame_transform signal window_size hop_length window_type i = Ok row /\
    length row = Z.to_nat (window_size / 2 + 1).
Proof.
  intros Hw HW Hs He. unfold frame_transform.
  destruct (apply_window_recognised
              (slice signal (i * hop_length) (i * hop_length + window_size))
              window_type Hw) as (w & -> & Hlen).
  rewrite slice_length in Hlen by lia. cbn [bind].
  destruct (rfft_length w) as (row & -> & Hrow).
  { intros ->. simpl in Hlen. lia. }
  rewrite Hlen, Z2Nat.id in Hrow by lia.
  now exists row.
Qed.

Lemma stft_loop_step (i : Z) (rest : list Z) (m : ndarray2 complex) :
  stft_loop signal window_size hop_length window_type (i :: rest) m =
  (row <- frame_transform signal window_size hop_length window_type i ;;
   m' <- set_row m i row ;;
   stft_loop signal window_size hop_length window_type rest m').
Proof.
  cbn [stft_loop]. unfold frame_transform.
  now destruct (apply_window _ window_type).
Qed.

(** The loop writes the transform of frame i in row i, and touches no
    other row. *)
Lemma stft_loop_rows (indices : list Z) (m : ndarray2 complex) :
  recognised window_type -> 0 < window_size ->
  NoDup indices ->
  (forall i, In i indices ->
     0 <= i < Z.of_nat (length (rows m)) /\ 0 <= i * hop_length /\
     i * hop_length + window_size <= Z.of_nat (length signal)) ->
  snd (shape m) = window_size / 2 + 1 ->
  exists m',
    stft_loop signal window_size hop_length window_type indices m = Ok m' /\
    shape m' = shape m /\ length (rows m') = length (rows m) /\
    (forall i, In i indices ->
       exists row,
         frame_transform signal window_size hop_length window_type i
           = Ok row /\
         nth_error (rows m') (Z.to_nat i) = Some row) /\
    (forall j, (forall i, In i indices -> Z.to_nat i <> j) ->
       nth_error (rows m') j = nth_error (rows m) j).
Proof.
  intros Hw HW Hnd. revert m.
  induction Hnd as [| i rest Hnotin Hnd IH]; intros m Hin Hshape.
  - exists m. split; [reflexivity |]. split; [reflexivity |].
    split; [reflexivity |]. split.
    + intros i Hi. destruct Hi.
    + intros j _. reflexivity.
  - destruct (Hin i (or_introl eq_refl)) as (Hi & Hs & He).
    destruct (frame_transform_full i Hw HW Hs He) as (row & Hrow & Hlen).
    destruct (set_row_spec m i row Hi) as (m1 & Hset & Hs1 & Hl1 & Hat & Hoth);
      [congruence |].
    destruct (IH m1) as (m' & Hrun & Hs' & Hl' & Hrows & Hkeep).
    + intros j Hj. rewrite Hl1. apply Hin. now right.
    + congruence.
    + exists m'. rewrite stft_loop_step, Hrow. cbn [bind].
      rewrite Hset. cbn [bind].
      split; [exact Hrun |]. split; [congruence |]. split; [congruence |].
      split.
      * intros j [<- | Hj].
        -- exists row. split; [exact Hrow |].
           rewrite Hkeep; [exact Hat |].
           intros k Hk Heq.
           assert (0 <= k) by (apply (Hin k); now right).
           apply Hnotin. replace i with k by lia. exact Hk.
        -- now apply Hrows.
      * intros j Hj. rewrite Hkeep.
        -- apply Hoth. intros ->. apply (Hj i); [now left | reflexivity].
        -- intros k Hk. apply Hj. now right.
Qed.

End StftRows.

Lemma range_NoDup (n : Z) : NoDup (range n).
Proof.
  unfold range. generalize 0%nat.
  induction (Z.to_nat n) as [| k IH]; intros s; simpl; constructor.
  - intros H. apply in_map_iff in H. destruct H as (j & Hj & Hin).
    apply in_seq in Hin. lia.
  - apply IH.
Qed.

(** What [compute_stft] returns once the frequency axis is known. *)
Lemma compute_stft_factored (signal : list float64) (sampling_rate : float64)
    (window_size hop_length : Z) (window_type : string)
    (d : float64) (freqs : list float64) :
  0 < window_size -> 0 < hop_length -> hop_length <= window_size ->
  window_size <= Z.of_nat (length signal) ->
  recognised window_type ->
  py_truediv (Fin 1) sampling_rate = Ok d ->
  rfftfreq window_size d = Ok freqs ->
  let num_windows :=
    1 + (Z.of_nat (length signal) - window_size) / hop_length in
  exists m,
    compute_stft signal sampling_rate window_size hop_length window_type
      = Ok (map (fun i => fdiv (of_Z (i * hop_length)) sampling_rate)
                (arange num_windows), freqs, m) /\
    shape m = (num_windows, window_size / 2 + 1) /\
    length (rows m) = Z.to_nat num_windows /\
    forall i, 0 <= i < num_windows ->
      exists row,
        frame_transform signal window_size hop_length window_type i
          = Ok row /\
        nth_error (rows m) (Z.to_nat i) = Some row.
Proof.
  intros HW HH HHW HL Hwt Hd Hfr nw.
  assert (Hnw : 1 <= nw).
  { subst nw.
    assert (0 <= (Z.of_nat (length signal) - window_size) / hop_length)
      by (apply Z.div_pos; lia).
    lia. }
  assert (Hc : 0 <= window_size / 2 + 1).
  { assert (0 <= window_size / 2) by (apply Z.div_pos; lia). lia. }
  rewrite compute_stft_checked by assumption. fold nw. cbv zeta.
  destruct (zeros_shape nw (window_size / 2 + 1)) as (m0 & -> & Hs0 & Hl0 & _);
    [lia | lia |].
  cbn [bind]. rewrite Hd. cbn [bind]. rewrite Hfr. cbn [bind].
  destruct (stft_loop_rows signal window_size hop_length window_type
              (range nw) m0 Hwt HW (range_NoDup nw))
    as (m & -> & Hs & Hl & Hrows & _).
  - intros i Hi. apply In_range in Hi. rewrite Hl0.
    split; [lia |]. apply frame_in_signal; assumption.
  - now rewrite Hs0.
  - cbn [bind]. exists m. split; [reflexivity |].
    split; [congruence |]. split; [congruence |].
    intros i Hi. apply Hrows.
    unfold range. apply in_map_iff. exists (Z.to_nat i).
    split; [lia |]. apply in_seq. lia.
Qed.

(** X5.  When the parameters pass the three checks, the signal holds at
    least one window, the sampling rate is neither zero nor infinite and
    the window name is recognised, row i of the matrix compute_stft
    returns is the transform of the windowed frame that starts at sample
    i * hop_length, for every i below the number of rows. *)
Theorem compute_stft_rows (signal : list float64) (sampling_rate : float64)
    (window_size hop_length : Z) (window_type : string) :
  0 < window_size -> 0 < hop_length -> hop_length <= window_size ->
  window_size <= Z.of_nat (length signal) ->
  usable_rate sampling_rate -> recognised window_type ->
  exists times freqs m,
    compute_stft signal sampling_rate window_size hop_length window_type
      = Ok (times, freqs, m) /\
    Z.of_nat (length (rows m))
      = 1 + (Z.of_nat (length signal) - window_size) / hop_length /\
    forall i,
      0 <= i < Z.of_nat (length (rows m)) ->
      exists windowed row,
        apply_window
          (slice signal (i * hop_length) (i * hop_length + window_size))
          window_type = Ok windowed /\
        rfft windowed = Ok row /\
        nth_error (rows m) (Z.to_nat i) = Some row.
Proof.
  intros HW HH HHW HL Hsr Hwt.
  destruct (freqs_of_usable_rate sampling_rate window_size Hsr HW)
    as (d & freqs & Hd & Hfr & _).
  destruct (compute_stft_factored signal sampling_rate window_size hop_length
              window_type d freqs HW HH HHW HL Hwt Hd Hfr)
    as (m & Hrun & Hs & Hl & Hrows).
  assert (Hnw : 0 <= (Z.of_nat (length signal) - window_size) / hop_length)
    by (apply Z.div_pos; lia).
  eexists _, freqs, m. split; [exact Hrun |]. split; [lia |].
  intros i Hi. destruct (Hrows i) as (row & Hrow & Hat); [lia |].
  unfold frame_transform in Hrow.
  destruct (apply_window _ window_type) as [w | e] eqn:E;
    [| discriminate Hrow].
  now exists w, row.
Qed.

Lemma compute_stft_rows_witness :
  exists times freqs m,
    compute_stft [Fin 1; Fin 2; Fin 3; Fin 4; Fin 5] (Fin 1000) 4 1 "hanning"
      = Ok (times, freqs, m) /\
    Z.of_nat (length (rows m)) = 1 + (5 - 4) / 1 /\
    forall i,
      0 <= i < Z.of_nat (length (rows m)) ->
      exists windowed row,
        apply_window
          (slice [Fin 1; Fin 2; Fin 3; Fin 4; Fin 5] (i * 1) (i * 1 + 4))
          "hanning" = Ok windowed /\
        rfft windowed = Ok row /\
        nth_error (rows m) (Z.to_nat i) = Some row.
Proof.
  apply (compute_stft_rows
           [Fin 1; Fin 2; Fin 3; Fin 4; Fin 5] (Fin 1000) 4 1 "hanning");
    try (simpl; lia).
  - apply usable_rate_finite, IZR_1000_nonzero.
  - right; left. reflexivity.
Defined.

Section FrequencyAxis.

Local Open Scope R_scope.

(** The bins of [rfftfreq] for a finite sampling rate x that is not zero:
    bin k lies at k * x / n. *)
Lemma rfftfreq_finite (x : R) (n : Z) :
  x <> 0 -> (0 < n)%Z ->
  py_truediv (Fin 1) (Fin x) = Ok (Fin (1 / x)) /\
  rfftfreq n (Fin (1 / x))
    = Ok (map (fun k => Fin (IZR k * x / IZR n)) (arange (n / 2 + 1))).
Proof.
  intros Hx Hn.
  assert (Hnr : 0 < IZR n) by (now apply IZR_lt).
  assert (Hinv : 1 / x <> 0).
  { unfold Rdiv. rewrite Rmult_1_l. now apply Rinv_neq_0_compat. }
  assert (Hprod : IZR n * (1 / x) <> 0).
  { intros E. apply Rmult_integral in E. destruct E; [lra | contradiction]. }
  split.
  - unfold py_truediv, fdiv.
    destruct (Req_dec_T x 0); [contradiction | reflexivity].
  - unfold rfftfreq, py_truediv, fdiv, of_Z. cbn [fmul].
    destruct (Req_dec_T (IZR n * (1 / x)) 0); [contradiction |].
    cbn [bind]. f_equal. apply map_ext. intros k. cbn [fmul]. f_equal.
    field. split; [lra | exact Hx].
Qed.

End FrequencyAxis.

(** X6.  For a finite sampling rate x other than zero (and parameters,
    signal and window as in X5), the frequency axis compute_stft returns
    has window_size // 2 + 1 bins, bin k at k * x / window_size (in exact
    arithmetic): it starts at 0 Hz and its step is x / window_size. *)
Theorem compute_stft_frequency_axis (signal : list float64) (x : R)
    (window_size hop_length : Z) (window_type : string) :
  0 < window_size -> 0 < hop_length -> hop_length <= window_size ->
  window_size <= Z.of_nat (length signal) ->
  x <> 0%R -> recognised window_type ->
  exists times freqs m,
    compute_stft signal (Fin x) window_size hop_length window_type
      = Ok (times, freqs, m) /\
    Z.of_nat (length freqs) = window_size / 2 + 1 /\
    forall k, 0 <= k < window_size / 2 + 1 ->
      nth_error freqs (Z.to_nat k)
        = Some (Fin (IZR k * x / IZR window_size)).
Proof.
  intros HW HH HHW HL Hx Hwt.
  destruct (rfftfreq_finite x window_size Hx HW) as (Hd & Hfr).
  destruct (compute_stft_factored signal (Fin x) window_size hop_length
              window_type _ _ HW HH HHW HL Hwt Hd Hfr)
    as (m & Hrun & _).
  assert (Hc : 0 <= window_size / 2) by (apply Z.div_pos; lia).
  eexists _, _, m. split; [exact Hrun |].
  unfold arange. rewrite length_map, range_length. split; [lia |].
  intros k Hk. now rewrite nth_error_map, nth_error_range by exact Hk.
Qed.

Lemma compute_stft_frequency_axis_witness :
  exists times freqs m,
    compute_stft [Fin 1; Fin 2; Fin 3; Fin 4; Fin 5] (Fin 1000) 4 1 "hamming"
      = Ok (times, freqs, m) /\
    Z.of_nat (length freqs) = 4 / 2 + 1 /\
    forall k, 0 <= k < 4 / 2 + 1 ->
      nth_error freqs (Z.to_nat k) = Some (Fin (IZR k * 1000 / IZR 4)).
Proof.
  apply (compute_stft_frequency_axis
           [Fin 1; Fin 2; Fin 3; Fin 4; Fin 5] 1000 4 1 "hamming");
    try (simpl; lia).
  - exact IZR_1000_nonzero.
  - left. reflexivity.
Defined.

(** X7.  Under the conditions of X5 the number of rows is the number of
    whole frames that fit: the last frame ends inside the signal and a
    further frame would not; the samples after the last frame, fewer than
    hop_length, are not transformed.  With hop_length = window_size the
    frames do not overlap and their number is len(signal) // window_size. *)
Theorem compute_stft_frame_count (signal : list float64)
    (sampling_rate : float64) (window_size hop_length : Z)
    (window_type : string) :
  0 < window_size -> 0 < hop_length -> hop_length <= window_size ->
  window_size <= Z.of_nat (length signal) ->
  usable_rate sampling_rate -> recognised window_type ->
  exists times freqs m num_windows,
    compute_stft signal sampling_rate window_size hop_length window_type
      = Ok (times, freqs, m) /\
    Z.of_nat (length (rows m)) = num_windows /\
    1 <= num_windows /\
    (num_windows - 1) * hop_length + window_size
      <= Z.of_nat (length signal) /\
    Z.of_nat (length signal) < num_windows * hop_length + window_size /\
    (hop_length = window_size ->
     num_windows = Z.of_nat (length signal) / window_size).
Proof.
  intros HW HH HHW HL Hsr Hwt.
  destruct (compute_stft_frames signal sampling_rate window_size hop_length
              window_type HW HH HHW HL Hsr Hwt)
    as (freqs & m & Hrun & _ & _ & Hl & _).
  set (q := (Z.of_nat (length signal) - window_size) / hop_length) in *.
  assert (Hq0 : 0 <= q) by (apply Z.div_pos; lia).
  assert (Hq1 : hop_length * q <= Z.of_nat (length signal) - window_size)
    by (apply Z.mul_div_le; lia).
  assert (Hq2 : Z.of_nat (length signal) - window_size
                < hop_length * Z.succ q)
    by (apply Z.mul_succ_div_gt; lia).
  eexists _, freqs, m, (1 + q). split; [exact Hrun |].
  split; [lia |]. split; [lia |]. split; [nia |]. split; [nia |].
  intros ->. apply Z.div_unique
    with (r := Z.of_nat (length signal) - window_size * (1 + q)); nia.
Qed.

Lemma compute_stft_frame_count_witness :
  exists times freqs m num_windows,
    compute_stft [Fin 1; Fin 2; Fin 3; Fin 4; Fin 5; Fin 6; Fin 7]
      (Fin 1000) 3 3 "hamming" = Ok (times, freqs, m) /\
    Z.of_nat (length (rows m)) = num_windows /\
    1 <= num_windows /\
    (num_windows - 1) * 3 + 3 <= 7 /\
    7 < num_windows * 3 + 3 /\
    (3 = 3 -> num_windows = 7 / 3).
Proof.
  apply (compute_stft_frame_count
           [Fin 1; Fin 2; Fin 3; Fin 4; Fin 5; Fin 6; Fin 7]
           (Fin 1000) 3 3 "hamming");
    try (simpl; lia).
  - apply usable_rate_finite, IZR_1000_nonzero.
  - left. reflexivity.
Defined.

(** ** The sampling rate is read unchecked *)







(** ** The spectrogram: when it exists, its shape, its values *)




Section SpectrogramValues.

Local Open Scope R_scope.




Lemma fold_Rmax_upper (v x : R) (t : list R) :
  In v (x :: t) -> v <= fold_left Rmax t x.
Proof.
  assert (Hge : forall t a, a <= fold_left Rmax t a).
  { induction t0 as [| y t0 IH]; intros a; simpl; [lra |].
    apply Rle_trans with (Rmax a y); [apply Rmax_l | apply IH]. }
  revert x. induction t as [| y t IH]; intros x [<- | Hin].
  - simpl. lra.
  - destruct Hin.
  - apply Hge.
  - simpl. destruct Hin as [<- | Hin].
    + apply Rle_trans with (Rmax x y); [apply Rmax_r | apply Hge].
    + apply IH. now right.
Qed.

(** No power, however small, falls below the decibels of eps. *)
Lemma decibel_floor (p : R) : 10 * (ln (/ 2 ^ 52) / ln 10) <= decibel p.
Proof.
  unfold decibel.
  assert (He : 0 < / 2 ^ 52) by (apply Rinv_0_lt_compat; lra).
  assert (Hl : ln (/ 2 ^ 52) <= ln (Rmax p (/ 2 ^ 52))).
  { destruct (Rmax_r p (/ 2 ^ 52)) as [Hlt | <-]; [| lra].
    left. now apply ln_increasing. }
  assert (H10 : 0 < ln 10) by (apply ln_above_one; lra).
  apply Rmult_le_compat_l; [lra |].
  unfold Rdiv. apply Rmult_le_compat_r; [| exact Hl].
  left. now apply Rinv_0_lt_compat.
Qed.

Lemma spectrogram_bounds_core {T F : Type} (times : T) (freqs : F)
    (stft_matrix : ndarray2 complex) (db_range : float64) :
  ravel stft_matrix <> [] -> finite_entries stft_matrix ->
  fle (Fin 0) db_range ->
  exists p ps output,
    map (fun z => fmul (cabs z) (cabs z)) (ravel stft_matrix)
      = map Fin (p :: ps) /\
    compute_spectrogram times freqs stft_matrix db_range = Ok output /\
    amax (ravel output) = Ok (Fin (decibel (fold_left Rmax ps p))) /\
    Forall (fun v => exists r,
              v = Fin r /\ r <= decibel (fold_left Rmax ps p) /\
              10 * (ln (/ 2 ^ 52) / ln 10) <= r /\
              fle (Fin (decibel (fold_left Rmax ps p) - r)) db_range)
           (ravel output).
Proof.
  intros Hne Hfin Hdb.
  destruct (spectrogram_clamped times freqs stft_matrix db_range Hfin Hne Hdb)
    as (p & ps & c & output & Hl & Hrun & _ & Hc & Hrange & Hout).
  exists p, ps, output. split; [exact Hl |]. split; [exact Hrun |].
  split; [rewrite Hout; exact (clamped_maximum p ps c Hc) |].
  rewrite Hout. apply Forall_forall. intros v Hv.
  apply in_map_iff in Hv. destruct Hv as (r & <- & Hr).
  apply in_map_iff in Hr. destruct Hr as (e & <- & He).
  apply in_map_iff in He. destruct He as (q & <- & Hq).
  exists (Rmax (decibel q) c). split; [reflexivity |].
  assert (Hq' : decibel q <= decibel (fold_left Rmax ps p))
    by (apply decibel_monotone, fold_Rmax_upper, Hq).
  split; [now apply Rmax_lub |]. split.
  - apply Rle_trans with (decibel q); [apply decibel_floor | apply Rmax_l].
  - apply fle_finite_below with (2 := Hrange).
    generalize (Rmax_r (decibel q) c). lra.
Qed.

End SpectrogramValues.

Section SpectrogramEdges.

Local Open Scope R_scope.

Lemma decibel_of_eps :
  fmul (Fin 10) (flog10 eps) = Fin (10 * (ln (/ 2 ^ 52) / ln 10)).
Proof.
  unfold eps, flog10.
  assert (He : 0 < / 2 ^ 52) by (apply Rinv_0_lt_compat; lra).
  destruct (Rlt_dec 0 (/ 2 ^ 52)) as [_ | H]; [reflexivity | contradiction].
Qed.

Lemma decibel_of_zero : decibel 0 = 10 * (ln (/ 2 ^ 52) / ln 10).
Proof.
  unfold decibel. rewrite Rmax_right; [reflexivity |].
  left. apply Rinv_0_lt_compat. lra.
Qed.

Lemma fold_Rmax_zeros (x : R) (t : list R) :
  Forall (fun v => v = 0) (x :: t) -> fold_left Rmax t x = 0.
Proof.
  intros H. inversion H as [| ? ? -> Ht]; subst. clear H.
  induction Ht as [| y t -> _ IH]; simpl; [reflexivity |].
  rewrite Rmax_left by lra. exact IH.
Qed.

Lemma power_of_zero : fmul (cabs czero) (cabs czero) = Fin 0.
Proof.
  unfold czero. cbn [cabs re im fmul]. f_equal.
  rewrite sqrt_sqrt by lra. ring.
Qed.

End SpectrogramEdges.



(** X11.  On a matrix with at least one entry whose entries are all 0+0j
    (the transform of a silent signal), and db_range >= 0, nothing fails:
    every value of the spectrogram is 10*log10(eps). *)
Theorem spectrogram_of_silence {T F : Type} (times : T) (freqs : F)
    (stft_matrix : ndarray2 complex) (db_range : float64) :
  ravel stft_matrix <> [] ->
  Forall (fun z => z = czero) (ravel stft_matrix) ->
  fle (Fin 0) db_range ->
  exists output,
    compute_spectrogram times freqs stft_matrix db_range = Ok output /\
    Forall (fun v => v = fmul (Fin 10) (flog10 eps)) (ravel output).
Proof.
  intros Hne Hzero Hdb.
  assert (Hfin : finite_entries stft_matrix).
  { eapply Forall_impl; [| exact Hzero]. simpl. intros z ->.
    split; exact I. }
  destruct (spectrogram_bounds_core times freqs stft_matrix db_range
              Hne Hfin Hdb)
    as (p & ps & output & Hl & Hrun & _ & Hall).
  assert (Hps : Forall (fun v => v = 0%R) (p :: ps)).
  { apply Forall_forall. intros v Hv.
    apply (in_map Fin) in Hv. rewrite <- Hl in Hv.
    apply in_map_iff in Hv. destruct Hv as (z & Hz & Hin).
    rewrite Forall_forall in Hzero. rewrite (Hzero z Hin) in Hz.
    rewrite power_of_zero in Hz. now injection Hz. }
  rewrite (fold_Rmax_zeros p ps Hps), decibel_of_zero in Hall.
  exists output. split; [exact Hrun |].
  eapply Forall_impl; [| exact Hall]. cbv beta.
  intros v (r & -> & Hhi & Hlo & _). rewrite decibel_of_eps.
  f_equal. now apply Rle_antisym.
Qed.

Lemma spectrogram_of_silence_witness :
  exists output,
    compute_spectrogram tt tt
      (Ndarray2 (2, 1) [[czero]; [czero]]) PInf = Ok output /\
    Forall (fun v => v = fmul (Fin 10) (flog10 eps)) (ravel output).
Proof.
  apply (spectrogram_of_silence tt tt (Ndarray2 (2, 1) [[czero]; [czero]])
           PInf).
  - discriminate.
  - repeat constructor.
  - exact I.
Defined.



(** ** The signal generator *)

Section Generator.

Local Open Scope R_scope.

Lemma combine_same_source {A B C} (u : A -> B) (v : A -> C) (l : list A) :
  combine (map u l) (map v l) = map (fun x => (u x, v x)) l.
Proof. induction l as [| x l IH]; simpl; [reflexivity | now rewrite IH]. Qed.

Lemma combine_finite (fs amps : list R) :
  combine (map Fin fs) (map Fin amps)
    = map (fun c => (Fin (fst c), Fin (snd c))) (combine fs amps).
Proof.
  revert amps. induction fs as [| f fs IH]; intros [| a amps]; simpl;
    try reflexivity.
  now rewrite IH.
Qed.

(** One pass of the loop over finite values adds one sinusoid to every
    sample. *)
Lemma add_component_finite (ts : list R) (g : R -> R) (f a : R) :
  add_component (map Fin ts) (map Fin (map g ts)) (Fin f, Fin a)
    = map Fin (map (fun t => g t + a * sin (2 * PI * f * t)) ts).
Proof.
  unfold add_component, add. cbn [fst snd].
  rewrite !map_map, combine_same_source, !map_map.
  apply map_ext. intros t. reflexivity.
Qed.

(** The whole loop, from any finite start. *)
Lemma fold_components (ts : list R) (cs : list (R * R)) (g : R -> R) :
  fold_left (add_component (map Fin ts))
            (map (fun c => (Fin (fst c), Fin (snd c))) cs)
            (map Fin (map g ts))
    = map Fin (map (fun t => g t + superposition cs t) ts).
Proof.
  revert g. induction cs as [| [f a] cs IH]; intros g; cbn [map fold_left].
  - f_equal. apply map_ext. intros t. simpl. ring.
  - cbn [fst snd]. rewrite add_component_finite, IH.
    f_equal. apply map_ext. intros t. simpl. ring.
Qed.

Lemma superposition_bounded (cs : list (R * R)) (t : R) :
  Rabs (superposition cs t) <= amplitude_sum cs.
Proof.
  induction cs as [| [f a] cs IH]; simpl.
  - rewrite Rabs_R0. lra.
  - eapply Rle_trans; [apply Rabs_triang |].
    apply Rplus_le_compat; [| exact IH].
    rewrite Rabs_mult. rewrite <- (Rmult_1_r (Rabs a)) at 2.
    apply Rmult_le_compat_l; [apply Rabs_pos |].
    apply Rabs_le. apply SIN_bound.
Qed.

Lemma add_component_length (t signal : list float64)
    (c : float64 * float64) :
  length signal = length t -> length (add_component t signal c) = length t.
Proof.
  intros H. unfold add_component, add.
  rewrite length_map, length_combine, length_map. lia.
Qed.

End Generator.

(** X13.  generate_signal returns one sample per time, whatever the
    values; zip pairs frequencies with amplitudes up to the shorter of
    the two lists and the rest is ignored without an error; with no pair
    at all the signal is all zeros. *)
Theorem generate_signal_shape (t frequencies amplitudes : list float64) :
  length (generate_signal t frequencies amplitudes) = length t /\
  generate_signal t frequencies amplitudes
    = generate_signal t
        (firstn (min (length frequencies) (length amplitudes)) frequencies)
        (firstn (min (length frequencies) (length amplitudes)) amplitudes) /\
  (frequencies = [] \/ amplitudes = [] ->
   generate_signal t frequencies amplitudes = map (fun _ => Fin 0) t).
Proof.
  unfold generate_signal. split; [| split].
  - assert (H : forall cs s, length s = length t ->
                length (fold_left (add_component t) cs s) = length t).
    { induction cs as [| c cs IH]; intros s Hs; simpl; [exact Hs |].
      apply IH. now apply add_component_length. }
    apply H. unfold zeros_like. apply length_map.
  - rewrite <- combine_firstn, <- length_combine. now rewrite firstn_all.
  - intros [-> | ->]; [reflexivity |].
    now destruct frequencies.
Qed.

Lemma generate_signal_shape_witness :
  generate_signal [Fin 0; NaN] [Fin 10] [] = map (fun _ => Fin 0) [Fin 0; NaN].
Proof.
  apply (generate_signal_shape [Fin 0; NaN] [Fin 10] []).
  right. reflexivity.
Defined.

(** X14.  On finite times, frequencies and amplitudes, sample i of
    generate_signal is the sum over the zipped pairs of
    amplitude * sin(2 pi frequency t[i]) (in exact arithmetic). *)
Theorem generate_signal_superposition (ts fs amps : list R) :
  generate_signal (map Fin ts) (map Fin fs) (map Fin amps)
    = map (fun t => Fin (superposition (combine fs amps) t)) ts.
Proof.
  unfold generate_signal, zeros_like.
  rewrite combine_finite.
  replace (map (fun _ : float64 => Fin 0) (map Fin ts))
    with (map Fin (map (fun _ : R => 0%R) ts))
    by (now rewrite !map_map).
  rewrite fold_components, map_map.
  apply map_ext. intros t. f_equal. ring.
Qed.

(** X15.  On finite inputs no sample of generate_signal exceeds, in
    absolute value, the sum of the absolute amplitudes that are paired
    with a frequency (in exact arithmetic). *)
Theorem generate_signal_bounded (ts fs amps : list R) :
  Forall (fun v => exists s,
            v = Fin s /\ (Rabs s <= amplitude_sum (combine fs amps))%R)
         (generate_signal (map Fin ts) (map Fin fs) (map Fin amps)).
Proof.
  unfold generate_signal, zeros_like.
  rewrite combine_finite.
  replace (map (fun _ : float64 => Fin 0) (map Fin ts))
    with (map Fin (map (fun _ : R => 0%R) ts))
    by (now rewrite !map_map).
  rewrite fold_components, map_map.
  apply Forall_forall. intros v Hv.
  apply in_map_iff in Hv. destruct Hv as (t & <- & _).
  eexists. split; [reflexivity |].
  rewrite Rplus_0_l. apply superposition_bounded.
Qed.

(** ** The transform of a whole signal *)

Lemma firstn_seq_prefix (k s n : nat) :
  (k <= n)%nat -> firstn k (seq s n) = seq s k.
Proof.
  revert s n. induction k as [| k IH]; intros s n Hk; [reflexivity |].
  destruct n as [| n]; [lia |]. simpl. f_equal. apply IH. lia.
Qed.

Lemma firstn_range (k n : Z) :
  0 <= k <= n -> firstn (Z.to_nat k) (range n) = range k.
Proof.
  intros Hk. unfold range. rewrite firstn_map.
  now rewrite firstn_seq_prefix by lia.
Qed.

Lemma slice_prefix {A} (l : list A) (k : Z) :
  slice l 0 k = firstn (Z.to_nat k) l.
Proof. unfold slice. now rewrite Z.sub_0_r. Qed.

Lemma half_bins (n : Z) :
  1 <= n -> 0 <= n / 2 <= (n - 1) / 2 + 1 /\ (n - 1) / 2 + 1 + n / 2 = n.
Proof. intros Hn. Z.div_mod_to_equations. lia. Qed.

Lemma fft_nonempty (signal : list float64) :
  signal <> [] ->
  fft signal = Ok (map (dft_bin signal) (arange (Z.of_nat (length signal)))).
Proof.
  intros Hne. unfold fft.
  destruct (Z.ltb_spec (Z.of_nat (length signal)) 1) as [H | _];
    [| reflexivity].
  destruct signal; [congruence | simpl in H; lia].
Qed.


Lemma fftfreq_usable (sampling_rate : float64) (n : Z) :
  usable_rate sampling_rate -> 1 <= n ->
  exists d full,
    py_truediv (Fin 1) sampling_rate = Ok d /\ fftfreq n d = Ok full.
Proof.
  intros (H0 & Hp & Hn) Hn1.
  assert (Hnr : (0 < IZR n)%R) by (apply IZR_lt; lia).
  destruct sampling_rate as [x | | |]; try congruence.
  - assert (Hx : x <> 0%R) by congruence.
    exists (Fin (1 / x)).
    unfold py_truediv at 1, fdiv.
    destruct (Req_dec_T x 0) as [E | _]; [contradiction |].
    unfold fftfreq, py_truediv, of_Z. cbn [fmul].
    destruct (Req_dec_T (IZR n * (1 / x)) 0) as [E | _].
    + exfalso. apply Rmult_integral in E. destruct E as [E | E]; [lra |].
      unfold Rdiv in E. rewrite Rmult_1_l in E.
      now apply (Rinv_neq_0_compat x Hx).
    + cbn [bind]. eexists. split; reflexivity.
  - exists NaN. cbn. unfold fftfreq. cbn. eexists. split; reflexivity.
Qed.




Section FullSpectrum.

Local Open Scope R_scope.

Lemma fftfreq_finite (x : R) (n : Z) :
  x <> 0 -> (1 <= n)%Z ->
  fftfreq n (Fin (1 / x))
    = Ok (map (fun k => Fin (IZR k * x / IZR n))
              (arange ((n - 1) / 2 + 1)
               ++ map (fun j => (j - n / 2)%Z) (arange (n / 2)))).
Proof.
  intros Hx Hn.
  assert (Hnr : 0 < IZR n) by (apply IZR_lt; lia).
  assert (Hinv : 1 / x <> 0).
  { unfold Rdiv. rewrite Rmult_1_l. now apply Rinv_neq_0_compat. }
  assert (Hprod : IZR n * (1 / x) <> 0).
  { intros E. apply Rmult_integral in E. destruct E; [lra | contradiction]. }
  unfold fftfreq, py_truediv, fdiv, of_Z. cbn [fmul].
  destruct (Req_dec_T (IZR n * (1 / x)) 0); [contradiction |].
  cbn [bind]. f_equal. apply map_ext. intros k. cbn [fmul]. f_equal.
  field. split; [lra | exact Hx].
Qed.

End FullSpectrum.

(** X17.  For a signal with samples and a finite sampling rate x other
    than zero, perform_fft returns the first len(signal) // 2 bins only:
    frequency k is k * x / len(signal), magnitude k is the modulus of bin
    k divided by len(signal); the raw spectrum is returned whole, with
    all its len(signal) bins (in exact arithmetic). *)
Theorem perform_fft_spectrum (signal : list float64) (x : R) :
  signal <> [] -> x <> 0%R ->
  let n := Z.of_nat (length signal) in
  perform_fft signal (Fin x)
    = Ok (map (fun k => Fin (IZR k * x / IZR n)) (arange (n / 2)),
          map (fun k => fdiv (cabs (dft_bin signal k)) (of_Z n))
              (arange (n / 2)),
          map (dft_bin signal) (arange n)).
Proof.
  intros Hne Hx n.
  assert (Hn : 1 <= n)
    by (subst n; destruct signal; [congruence | simpl; lia]).
  destruct (half_bins n Hn) as ((Hh0 & Hh1) & Hsum).
  destruct (rfftfreq_finite x n Hx) as (Hd & _); [lia |].
  unfold perform_fft. fold n.
  rewrite (fft_nonempty signal Hne). fold n. cbn [bind].
  rewrite Hd. cbn [bind].
  rewrite (fftfreq_finite x n Hx Hn). cbn [bind].
  rewrite !slice_prefix, !firstn_map. unfold arange.
  rewrite firstn_app, !firstn_range by lia.
  rewrite range_length.
  replace (Z.to_nat (n / 2) - Z.to_nat ((n - 1) / 2 + 1))%nat with 0%nat
    by lia.
  cbn [firstn]. rewrite app_nil_r, map_map. reflexivity.
Qed.

Lemma perform_fft_spectrum_witness :
  perform_fft [Fin 1; Fin 2; Fin 3; Fin 4] (Fin 1000)
    = Ok (map (fun k => Fin (IZR k * 1000 / IZR 4)) (arange (4 / 2)),
          map (fun k =>
                 fdiv (cabs (dft_bin [Fin 1; Fin 2; Fin 3; Fin 4] k))
                      (of_Z 4))
              (arange (4 / 2)),
          map (dft_bin [Fin 1; Fin 2; Fin 3; Fin 4]) (arange 4)).
Proof.
  apply (perform_fft_spectrum [Fin 1; Fin 2; Fin 3; Fin 4] 1000).
  - discriminate.
  - exact IZR_1000_nonzero.
Defined.

(** ** The inverse transform *)

Lemma ifft_nonempty (spectrum : list complex) :
  spectrum <> [] ->
  ifft spectrum
    = Ok (map (idft_bin spectrum) (arange (Z.of_nat (length spectrum)))).
Proof.
  intros Hne. unfold ifft.
  destruct (Z.ltb_spec (Z.of_nat (length spectrum)) 1) as [H | _];
    [| reflexivity].
  destruct spectrum; [congruence | simpl in H; lia].
Qed.

(** X18.  perform_ifft raises ValueError on an empty spectrum and
    otherwise returns one real sample per bin; applied to the raw
    spectrum that perform_fft returns for a signal (with samples, and a
    sampling rate neither zero nor infinite) it returns len(signal)
    samples. *)
Theorem perform_ifft_outcomes (spectrum : list complex)
    (signal : list float64) (sampling_rate : float64) :
  (spectrum = [] ->
   perform_ifft spectrum
     = Raise (ValueError "Invalid number of FFT data points (0) specified."))
  /\
  (spectrum <> [] ->
   exists samples,
     perform_ifft spectrum = Ok samples /\
     length samples = length spectrum) /\
  (signal <> [] -> usable_rate sampling_rate ->
   exists freq magnitude fft_result samples,
     perform_fft signal sampling_rate = Ok (freq, magnitude, fft_result) /\
     perform_ifft fft_result = Ok samples /\
     length samples = length signal).
Proof.
  assert (Hinv : forall sp : list complex, sp <> [] ->
            exists samples,
              perform_ifft sp = Ok samples /\ length samples = length sp).
  { intros sp Hne. unfold perform_ifft. rewrite (ifft_nonempty sp Hne).
    cbn [bind]. eexists. split; [reflexivity |].
    unfold arange. rewrite !length_map, range_length. lia. }
  split; [| split].
  - intros ->. reflexivity.
  - exact (Hinv spectrum).
  - intros Hne Hsr.
    assert (Hn : 1 <= Z.of_nat (length signal))
      by (destruct signal; [congruence | simpl; lia]).
    destruct (fftfreq_usable sampling_rate _ Hsr Hn)
      as (d & full & Hd & Hfull).
    unfold perform_fft. rewrite (fft_nonempty signal Hne). cbn [bind].
    rewrite Hd. cbn [bind]. rewrite Hfull. cbn [bind].
    destruct (Hinv (map (dft_bin signal)
                        (arange (Z.of_nat (length signal)))))
      as (samples & Hrun & Hlen).
    { destruct signal; [congruence |]. unfold arange.
      rewrite range_pos by (simpl; lia). discriminate. }
    eexists _, _, _, samples. split; [reflexivity |].
    split; [exact Hrun |].
    rewrite Hlen. unfold arange. rewrite length_map, range_length. lia.
Qed.

Lemma perform_ifft_outcomes_witness :
  (exists samples,
     perform_ifft [czero; czero] = Ok samples /\
     length samples = length [czero; czero]) /\
  exists freq magnitude fft_result samples,
    perform_fft [Fin 1; Fin 2; Fin 3] (Fin 1000)
      = Ok (freq, magnitude, fft_result) /\
    perform_ifft fft_result = Ok samples /\
    length samples = length [Fin 1; Fin 2; Fin 3].
Proof.
  split.
  - apply (perform_ifft_outcomes [czero; czero] [] (Fin 0)). discriminate.
  - apply (perform_ifft_outcomes [] [Fin 1; Fin 2; Fin 3] (Fin 1000)).
    + discriminate.
    + apply usable_rate_finite, IZR_1000_nonzero.
Defined.

(** ** The transform and its inverse on finite values *)

Section FiniteTransform.

Local Open Scope R_scope.

Lemma fold_cadd_finite {A} (u v : A -> R) (l : list A) (a b : R) :
  fold_left cadd (map (fun p => Complex (Fin (u p)) (Fin (v p))) l)
            (Complex (Fin a) (Fin b))
    = Complex (Fin (a + Rsum (map u l))) (Fin (b + Rsum (map v l))).
Proof.
  revert a b. induction l as [| p l IH]; intros a b; cbn [map fold_left].
  - simpl. f_equal; f_equal; ring.
  - unfold cadd at 2. cbn [re im fadd]. rewrite IH.
    simpl. f_equal; f_equal; ring.
Qed.

Lemma combine_with_map {A B C} (f : B -> C) (l : list A) (l' : list B) :
  combine l (map f l') = map (fun p => (fst p, f (snd p))) (combine l l').
Proof.
  revert l'. induction l as [| x l IH]; intros [| y l']; simpl;
    try reflexivity.
  now rewrite IH.
Qed.

Lemma combine_with_image {A B} (f : A -> B) (l : list A) :
  combine l (map f l) = map (fun x => (x, f x)) l.
Proof. induction l as [| x l IH]; simpl; [reflexivity | now rewrite IH]. Qed.

Lemma finite_turn (n j k : Z) :
  (1 <= n)%Z ->
  fdiv (fmul (fmul (Fin 2) np_pi) (of_Z (j * k))) (of_Z n)
    = Fin (turn n j k).
Proof.
  intros Hn. unfold np_pi, of_Z, turn. cbn [fmul fdiv].
  destruct (Req_dec_T (IZR n) 0) as [E | _]; [| reflexivity].
  apply eq_IZR in E. lia.
Qed.

(** A bin of the transform of finite samples is finite. *)
Lemma dft_bin_finite (xs : list R) (k : Z) :
  xs <> [] ->
  dft_bin (map Fin xs) k = Complex (Fin (dft_re xs k)) (Fin (dft_im xs k)).
Proof.
  intros Hne.
  assert (Hn : (1 <= Z.of_nat (length xs))%Z)
    by (destruct xs; [congruence | simpl; lia]).
  unfold dft_bin, dft_re, dft_im. rewrite length_map.
  rewrite combine_with_map, map_map.
  rewrite (map_ext _
             (fun p : Z * R =>
                Complex
                  (Fin (snd p * cos (turn (Z.of_nat (length xs)) (fst p) k)))
                  (Fin (- (snd p
                           * sin (turn (Z.of_nat (length xs)) (fst p) k)))))).
  - unfold czero. rewrite fold_cadd_finite. f_equal; f_equal; ring.
  - intros [j x]. cbn [fst snd]. cbv zeta.
    now rewrite (finite_turn _ j k Hn).
Qed.

End FiniteTransform.

(** ** Sums of cosines over a whole number of turns *)

Section Orthogonality.

Local Open Scope R_scope.

Lemma Rsum_app (l l' : list R) : Rsum (l ++ l') = Rsum l + Rsum l'.
Proof.
  induction l as [| x l IH]; simpl; [ring |]. fold (Rsum (l ++ l')).
  rewrite IH. fold (Rsum l). ring.
Qed.

Lemma Rsum_plus {A} (g h : A -> R) (l : list A) :
  Rsum (map (fun p => g p + h p) l) = Rsum (map g l) + Rsum (map h l).
Proof.
  induction l as [| p l IH]; simpl; [ring |].
  fold (Rsum (map (fun p => g p + h p) l)). rewrite IH.
  fold (Rsum (map g l)) (Rsum (map h l)). ring.
Qed.

Lemma Rsum_scale {A} (c : R) (g : A -> R) (l : list A) :
  Rsum (map (fun p => c * g p) l) = c * Rsum (map g l).
Proof.
  induction l as [| p l IH]; simpl; [ring |].
  fold (Rsum (map (fun p => c * g p) l)). rewrite IH.
  fold (Rsum (map g l)). ring.
Qed.

Lemma Rsum_zero {A} (g : A -> R) (l : list A) :
  (forall p, In p l -> g p = 0) -> Rsum (map g l) = 0.
Proof.
  induction l as [| p l IH]; intros H; simpl; [reflexivity |].
  fold (Rsum (map g l)).
  rewrite IH by (intros q Hq; apply H; right; exact Hq).
  rewrite (H p) by (left; reflexivity). ring.
Qed.

Lemma Rsum_ext {A} (g h : A -> R) (l : list A) :
  (forall p, In p l -> g p = h p) -> Rsum (map g l) = Rsum (map h l).
Proof. intros H. f_equal. now apply map_ext_in. Qed.

Lemma Rsum_combination {A} (a b : A -> R) (c s : R) (l : list A) :
  Rsum (map a l) * c + - (Rsum (map b l) * s)
    = Rsum (map (fun p => a p * c + - (b p * s)) l).
Proof.
  induction l as [| p l IH]; simpl; [ring |].
  fold (Rsum (map a l)) (Rsum (map b l))
       (Rsum (map (fun p => a p * c + - (b p * s)) l)).
  rewrite <- IH. ring.
Qed.

(** The two sums of a double sum can be exchanged. *)
Lemma Rsum_exchange {A B} (f : A -> B -> R) (K : list A) (P : list B) :
  Rsum (map (fun k => Rsum (map (f k) P)) K)
    = Rsum (map (fun p => Rsum (map (fun k => f k p) K)) P).
Proof.
  induction K as [| k K IH]; simpl.
  - symmetry. now apply Rsum_zero.
  - fold (Rsum (map (fun k => Rsum (map (f k) P)) K)). rewrite IH.
    rewrite <- Rsum_plus. apply Rsum_ext. intros p _. simpl. reflexivity.
Qed.

(** Twice the sine of a half step times the sum of the cosines of the
    first N multiples of a step telescopes. *)
Lemma cos_sum_telescopes (theta : R) (N : nat) :
  2 * sin (theta / 2) * Rsum (map (fun i => cos (INR i * theta)) (seq 0 N))
    = sin ((INR N - 1 / 2) * theta) + sin (theta / 2).
Proof.
  induction N as [| N IH].
  - simpl. replace ((0 - 1 / 2) * theta) with (- (theta / 2)) by field.
    rewrite sin_neg. ring.
  - rewrite seq_S, map_app, Rsum_app, Rmult_plus_distr_l, IH.
    cbn [map Rsum fold_right Nat.add]. rewrite S_INR.
    replace ((INR N + 1 - 1 / 2) * theta) with (INR N * theta + theta / 2)
      by field.
    replace ((INR N - 1 / 2) * theta) with (INR N * theta - theta / 2)
      by field.
    rewrite sin_plus, sin_minus. ring.
Qed.

(** Over a whole number d of turns, 0 < d < N, the cosines cancel. *)
Lemma cos_sum_cancels (N d : nat) :
  (0 < d < N)%nat ->
  Rsum (map (fun i => cos (INR i * (2 * PI * INR d / INR N))) (seq 0 N)) = 0.
Proof.
  intros Hd.
  assert (HN : 0 < INR N) by (apply lt_0_INR; lia).
  assert (Hd0 : 0 < INR d) by (apply lt_0_INR; lia).
  assert (HdN : INR d < INR N) by (apply lt_INR; lia).
  set (theta := 2 * PI * INR d / INR N).
  assert (Hhalf : 0 < sin (theta / 2)).
  { assert (Hpi := PI_RGT_0).
    assert (E : theta / 2 = PI * (INR d / INR N)) by (unfold theta; field; lra).
    assert (0 < INR d / INR N) by (now apply Rdiv_lt_0_compat).
    assert (INR d / INR N < 1).
    { apply Rmult_lt_reg_r with (INR N); [exact HN |].
      unfold Rdiv. rewrite Rmult_assoc, Rinv_l by lra. lra. }
    rewrite E. apply sin_gt_0; nra. }
  generalize (cos_sum_telescopes theta N).
  replace ((INR N - 1 / 2) * theta) with (- (theta / 2) + 2 * INR d * PI)
    by (unfold theta; field; lra).
  rewrite sin_period, sin_neg. intros H.
  apply Rmult_eq_reg_l with (2 * sin (theta / 2)); [| lra].
  rewrite H. ring.
Qed.

Lemma cos_sum_full (N : nat) :
  Rsum (map (fun i => cos (INR i * 0)) (seq 0 N)) = INR N.
Proof.
  induction N as [| N IH]; [reflexivity |].
  rewrite seq_S, map_app, Rsum_app, IH. cbn [map Rsum fold_right Nat.add].
  rewrite S_INR, Rmult_0_r, cos_0. ring.
Qed.

End Orthogonality.

Section Inversion.

Local Open Scope R_scope.

Lemma turn_of_nat (n d : Z) (i : nat) :
  turn n (Z.of_nat i) d = INR i * (2 * PI * IZR d / IZR n).
Proof.
  unfold turn. rewrite mult_IZR, <- INR_IZR_INZ. unfold Rdiv. ring.
Qed.

Lemma turn_opposite (n k d : Z) : turn n k (- d) = - turn n k d.
Proof.
  unfold turn. rewrite Z.mul_opp_r, opp_IZR. unfold Rdiv. ring.
Qed.

Lemma turn_difference (n j k m : Z) :
  turn n j k - turn n k m = turn n k (j - m).
Proof.
  unfold turn. rewrite !mult_IZR, minus_IZR. unfold Rdiv. ring.
Qed.

Lemma cos_turn_sum_positive (n d : Z) :
  (0 < d < n)%Z ->
  Rsum (map (fun k => cos (turn n k d)) (arange n)) = 0.
Proof.
  intros Hd. unfold arange, range. rewrite map_map.
  rewrite (map_ext _ (fun i => cos (INR i * (2 * PI * INR (Z.to_nat d)
                                            / INR (Z.to_nat n))))).
  - apply cos_sum_cancels. lia.
  - intros i. rewrite turn_of_nat.
    now rewrite !INR_IZR_INZ, !Z2Nat.id by lia.
Qed.

(** The cosines of the multiples of d turns over n sum to n when d = 0
    and cancel for every other d between -n and n. *)
Lemma cos_turn_sum (n d : Z) :
  (1 <= n)%Z -> (- n < d < n)%Z ->
  Rsum (map (fun k => cos (turn n k d)) (arange n))
    = if (d =? 0)%Z then IZR n else 0.
Proof.
  intros Hn Hd. destruct (Z.eqb_spec d 0) as [-> | Hnz].
  - unfold arange, range. rewrite map_map.
    rewrite (map_ext _ (fun i => cos (INR i * 0))).
    + rewrite cos_sum_full, INR_IZR_INZ. now rewrite Z2Nat.id by lia.
    + intros i. rewrite turn_of_nat. f_equal. unfold Rdiv. ring.
  - destruct (Z.lt_ge_cases 0 d) as [Hpos | Hneg].
    + apply cos_turn_sum_positive. lia.
    + rewrite (map_ext _ (fun k => cos (turn n k (- d)))).
      * apply cos_turn_sum_positive. lia.
      * intros k. now rewrite turn_opposite, cos_neg.
Qed.

(** A sum that keeps the sample whose index is m and no other. *)
Lemma pick_sample (c : R) (m : nat) (xs : list R) (s : nat) :
  Rsum (map (fun p : Z * R =>
               snd p * (if (fst p =? Z.of_nat m)%Z then c else 0))
            (combine (map Z.of_nat (seq s (length xs))) xs))
    = if (s <=? m)%nat then c * nth (m - s) xs 0 else 0.
Proof.
  revert s. induction xs as [| x xs IH]; intros s.
  - simpl. destruct (s <=? m)%nat; [| reflexivity].
    destruct (m - s)%nat; simpl; ring.
  - cbn [length seq map combine Rsum fold_right fst snd].
    fold (Rsum (map (fun p : Z * R =>
                       snd p * (if (fst p =? Z.of_nat m)%Z then c else 0))
                    (combine (map Z.of_nat (seq (S s) (length xs))) xs))).
    rewrite IH.
    destruct (Z.eqb_spec (Z.of_nat s) (Z.of_nat m)) as [E | E].
    + apply Nat2Z.inj in E. subst s.
      rewrite Nat.leb_refl, Nat.sub_diag.
      destruct (Nat.leb_spec (S m) m); [lia |]. simpl. ring.
    + destruct (Nat.leb_spec s m) as [Hle | Hgt].
      * destruct (Nat.leb_spec (S s) m); [| lia].
        replace (m - s)%nat with (S (m - S s)) by lia. simpl. ring.
      * destruct (Nat.leb_spec (S s) m); [lia |]. ring.
Qed.

(** The sum the inverse transform takes over the bins of the transform
    of xs is n times sample m. *)
Lemma inverse_sum (xs : list R) (m : Z) :
  (0 <= m < Z.of_nat (length xs))%Z ->
  Rsum (map (fun k =>
               dft_re xs k * cos (turn (Z.of_nat (length xs)) k m)
               + - (dft_im xs k * sin (turn (Z.of_nat (length xs)) k m)))
            (arange (Z.of_nat (length xs))))
    = IZR (Z.of_nat (length xs)) * nth (Z.to_nat m) xs 0.
Proof.
  intros Hm. set (n := Z.of_nat (length xs)) in *.
  set (P := combine (arange n) xs).
  rewrite (Rsum_ext _
             (fun k => Rsum (map (fun p : Z * R =>
                                    snd p * cos (turn n k (fst p - m))) P))).
  2:{ intros k _. unfold dft_re, dft_im. fold n. fold P.
      rewrite Rsum_combination. apply Rsum_ext.
      intros [j x] _. cbn [fst snd].
      rewrite <- turn_difference, cos_minus. ring. }
  rewrite Rsum_exchange.
  rewrite (Rsum_ext _
             (fun p : Z * R =>
                snd p * (if (fst p =? Z.of_nat (Z.to_nat m))%Z
                         then IZR n else 0))).
  2:{ intros [j x] Hin. cbn [fst snd]. rewrite Rsum_scale. f_equal.
      apply in_combine_l in Hin. apply In_range in Hin.
      rewrite cos_turn_sum by lia. rewrite Z2Nat.id by lia.
      destruct (Z.eqb_spec (j - m) 0), (Z.eqb_spec j m);
        try reflexivity; lia. }
  unfold P, arange, range. subst n. rewrite Nat2Z.id.
  rewrite pick_sample. cbn [Nat.leb]. now rewrite Nat.sub_0_r.
Qed.

End Inversion.

Section RoundTrip.

Local Open Scope R_scope.

(** The real part of sample m of the inverse transform of a finite
    spectrum of n bins. *)
Lemma idft_bin_finite (a b : Z -> R) (n m : Z) :
  (1 <= n)%Z ->
  re (idft_bin (map (fun k => Complex (Fin (a k)) (Fin (b k))) (arange n)) m)
    = Fin ((0 + Rsum (map (fun k => a k * cos (turn n k m)
                                    + - (b k * sin (turn n k m)))
                          (arange n)))
           * (1 / IZR n)).
Proof.
  intros Hn. unfold idft_bin.
  assert (Hlen : Z.of_nat (length (map (fun k => Complex (Fin (a k))
                                                         (Fin (b k)))
                                       (arange n))) = n).
  { unfold arange. rewrite length_map, range_length. lia. }
  rewrite Hlen, combine_with_image, map_map.
  rewrite (map_ext _
             (fun k =>
                Complex (Fin (a k * cos (turn n k m)
                              + - (b k * sin (turn n k m))))
                        (Fin (a k * sin (turn n k m)
                              + b k * cos (turn n k m))))).
  - unfold czero. rewrite fold_cadd_finite. cbn [re im].
    unfold of_Z. cbn [fdiv].
    destruct (Req_dec_T (IZR n) 0) as [E | _]; [| reflexivity].
    apply eq_IZR in E. lia.
  - intros k. cbn [fst snd]. cbv zeta.
    rewrite (finite_turn n k m Hn). reflexivity.
Qed.

Lemma samples_by_index (xs : list R) :
  map (fun m => Fin (nth (Z.to_nat m) xs 0))
      (arange (Z.of_nat (length xs)))
    = map Fin xs.
Proof.
  unfold arange, range. rewrite Nat2Z.id, map_map.
  rewrite (map_ext _ (fun i => Fin (nth i xs 0)))
    by (intros i; now rewrite Nat2Z.id).
  rewrite <- (map_map (fun i => nth i xs 0) Fin). f_equal.
  induction xs as [| x xs IH]; [reflexivity |].
  cbn [length seq map nth]. f_equal.
  rewrite <- seq_shift, map_map. exact IH.
Qed.

End RoundTrip.

(** X19.  For finite samples and a finite sampling rate other than zero,
    perform_ifft applied to the raw spectrum returned by perform_fft
    gives the samples back, every one of them (in exact arithmetic: the
    defining sums of the transform and of its inverse, without
    rounding). *)
Theorem perform_fft_round_trip (xs : list R) (x : R) :
  xs <> [] -> x <> 0%R ->
  exists freq magnitude fft_result,
    perform_fft (map Fin xs) (Fin x) = Ok (freq, magnitude, fft_result) /\
    perform_ifft fft_result = Ok (map Fin xs).
Proof.
  intros Hne Hx.
  assert (Hne' : map Fin xs <> []) by (destruct xs; [congruence | discriminate]).
  assert (Hn : 1 <= Z.of_nat (length xs))
    by (destruct xs; [congruence | simpl; lia]).
  destruct (fftfreq_usable (Fin x) (Z.of_nat (length (map Fin xs)))
              (usable_rate_finite x Hx))
    as (d & full & Hd & Hfull); [rewrite length_map; exact Hn |].
  unfold perform_fft. rewrite (fft_nonempty _ Hne'). cbn [bind].
  rewrite Hd. cbn [bind]. rewrite Hfull. cbn [bind].
  eexists _, _, _. split; [reflexivity |].
  rewrite length_map.
  rewrite (map_ext _ (fun k => Complex (Fin (dft_re xs k))
                                       (Fin (dft_im xs k))))
    by (intros k; now apply dft_bin_finite).
  unfold perform_ifft. rewrite ifft_nonempty.
  2:{ unfold arange. rewrite range_pos by lia. discriminate. }
  cbn [bind]. f_equal.
  assert (Hlen : Z.of_nat (length (map (fun k => Complex (Fin (dft_re xs k))
                                                         (Fin (dft_im xs k)))
                                       (arange (Z.of_nat (length xs)))))
                 = Z.of_nat (length xs)).
  { unfold arange. rewrite length_map, range_length. lia. }
  rewrite Hlen, map_map, <- samples_by_index.
  apply map_ext_in. intros m Hm. apply In_range in Hm.
  rewrite (idft_bin_finite (dft_re xs) (dft_im xs) _ m Hn).
  f_equal. rewrite (inverse_sum xs m Hm). field.
  apply not_0_IZR. lia.
Qed.

Lemma perform_fft_round_trip_witness :
  exists freq magnitude fft_result,
    perform_fft (map Fin [1; 2; 3]%R) (Fin 1000)
      = Ok (freq, magnitude, fft_result) /\
    perform_ifft fft_result = Ok (map Fin [1; 2; 3]%R).
Proof.
  apply (perform_fft_round_trip [1; 2; 3]%R 1000).
  - discriminate.
  - exact IZR_1000_nonzero.
Defined.

Section MeanBin.

Local Open Scope R_scope.

Lemma Rsum_of_pairs {A} (l : list A) (xs : list R) :
  length l = length xs -> Rsum (map snd (combine l xs)) = Rsum xs.
Proof.
  revert xs. induction l as [| a l IH]; intros [| x xs] H;
    try discriminate H; [reflexivity |].
  simpl. fold (Rsum (map snd (combine l xs))) (Rsum xs).
  rewrite IH; [reflexivity | now injection H].
Qed.

(** Bin 0 of the transform of finite samples is their sum. *)
Lemma dft_bin_zero (xs : list R) :
  dft_re xs 0 = Rsum xs /\ dft_im xs 0 = 0.
Proof.
  unfold dft_re, dft_im. split.
  - rewrite <- (Rsum_of_pairs (arange (Z.of_nat (length xs))) xs)
      by (unfold arange; rewrite range_length; lia).
    apply Rsum_ext. intros [j v] _. cbn [fst snd]. unfold turn.
    rewrite Z.mul_0_r.
    replace (2 * PI * 0 / IZR (Z.of_nat (length xs))) with 0
      by (unfold Rdiv; ring).
    rewrite cos_0. ring.
  - apply Rsum_zero. intros [j v] _. cbn [fst snd]. unfold turn.
    rewrite Z.mul_0_r.
    replace (2 * PI * 0 / IZR (Z.of_nat (length xs))) with 0
      by (unfold Rdiv; ring).
    rewrite sin_0. ring.
Qed.

End MeanBin.

(** X20.  For at least two finite samples and a finite sampling rate
    other than zero, the first frequency perform_fft returns is 0 Hz and
    the first magnitude is the absolute value of the mean of the samples
    (in exact arithmetic): the magnitudes are divided by len(signal). *)
Theorem perform_fft_mean (xs : list R) (x : R) :
  (2 <= length xs)%nat -> x <> 0%R ->
  exists freq magnitude fft_result,
    perform_fft (map Fin xs) (Fin x) = Ok (freq, magnitude, fft_result) /\
    nth_error freq 0 = Some (Fin 0) /\
    nth_error magnitude 0
      = Some (Fin (Rabs (Rsum xs / INR (length xs)))).
Proof.
  intros Hlen Hx.
  assert (Hne : xs <> []) by (destruct xs; [simpl in Hlen; lia | discriminate]).
  assert (Hne' : map Fin xs <> [])
    by (destruct xs; [congruence | discriminate]).
  set (n := Z.of_nat (length xs)).
  assert (Hn : 2 <= n) by (subst n; lia).
  assert (Hhalf : 1 <= n / 2) by (apply Z.div_le_lower_bound; lia).
  destruct (half_bins n) as ((Hh0 & Hh1) & Hsum); [lia |].
  destruct (rfftfreq_finite x n Hx) as (Hd & _); [lia |].
  unfold perform_fft. rewrite (fft_nonempty _ Hne'), length_map. fold n.
  cbn [bind]. rewrite Hd. cbn [bind].
  rewrite (fftfreq_finite x n Hx) by lia. cbn [bind].
  eexists _, _, _. split; [reflexivity |].
  rewrite !slice_prefix, !firstn_map. unfold arange.
  rewrite firstn_app, !firstn_range by lia.
  rewrite (range_pos (n / 2)) by lia. cbn [map app nth_error].
  split.
  - do 2 f_equal. unfold Rdiv. ring.
  - rewrite (dft_bin_finite xs 0 Hne).
    destruct (dft_bin_zero xs) as (-> & ->).
    unfold of_Z. cbn [cabs re im fdiv].
    assert (Hnr : (0 < IZR n)%R) by (apply IZR_lt; lia).
    destruct (Req_dec_T (IZR n) 0) as [E | _]; [lra |].
    do 2 f_equal.
    replace (Rsum xs * Rsum xs + 0 * 0)%R with (Rsqr (Rsum xs))
      by (unfold Rsqr; ring).
    rewrite sqrt_Rsqr_abs. subst n. rewrite <- INR_IZR_INZ.
    unfold Rdiv. rewrite Rabs_mult. f_equal.
    rewrite Rabs_inv. f_equal. symmetry. apply Rabs_pos_eq.
    apply pos_INR.
Qed.

Lemma perform_fft_mean_witness :
  exists freq magnitude fft_result,
    perform_fft (map Fin [3; 5]%R) (Fin 1000)
      = Ok (freq, magnitude, fft_result) /\
    nth_error freq 0 = Some (Fin 0) /\
    nth_error magnitude 0
      = Some (Fin (Rabs (Rsum [3; 5]%R / INR (length [3; 5]%R)))).
Proof.
  apply (perform_fft_mean [3; 5]%R 1000).
  - simpl. lia.
  - exact IZR_1000_nonzero.
Defined.

(** ** Experiment identifiers *)

Lemma append_cancel (s a b : string) :
  (s ++ a = s ++ b)%string -> a = b.
Proof.
  induction s as [| c s IH]; simpl; intros H; [exact H |].
  injection H as H. now apply IH.
Qed.

Lemma append_empty (s : string) : (s ++ "")%string = s.
Proof. induction s as [| c s IH]; simpl; [reflexivity | now rewrite IH]. Qed.

(** X21.  For one date and one prefix, get_experiment_id gives
    prefix_date for a missing function name and for the empty name
    alike, prefix_date_name for every other name; an identifier with a
    name never equals the one without, and two different names never
    give the same identifier. *)
Theorem experiment_id_names (date_str prefix name1 name2 : string) :
  get_experiment_id date_str prefix None
    = (prefix ++ "_" ++ date_str)%string /\
  get_experiment_id date_str prefix (Some ""%string)
    = get_experiment_id date_str prefix None /\
  (name1 <> ""%string ->
   get_experiment_id date_str prefix (Some name1)
     = (prefix ++ "_" ++ date_str ++ "_" ++ name1)%string /\
   get_experiment_id date_str prefix (Some name1)
     <> get_experiment_id date_str prefix None) /\
  (name1 <> ""%string -> name2 <> ""%string ->
   get_experiment_id date_str prefix (Some name1)
     = get_experiment_id date_str prefix (Some name2) ->
   name1 = name2).
Proof.
  split; [reflexivity |]. split; [reflexivity |]. split.
  - intros H1. destruct name1 as [| c rest]; [congruence |].
    split; [reflexivity |]. simpl. intros E.
    apply append_cancel in E. injection E as E.
    rewrite <- (append_empty date_str) in E at 2.
    apply append_cancel in E. discriminate E.
  - intros H1 H2 E.
    destruct name1 as [| c1 r1]; [congruence |].
    destruct name2 as [| c2 r2]; [congruence |].
    simpl in E. apply append_cancel in E. injection E as E.
    apply append_cancel in E. now injection E as -> ->.
Qed.

Lemma experiment_id_names_witness :
  (get_experiment_id "20240131" "EXP" (Some "save_results"%string)
     = ("EXP" ++ "_" ++ "20240131" ++ "_" ++ "save_results")%string /\
   get_experiment_id "20240131" "EXP" (Some "save_results"%string)
     <> get_experiment_id "20240131" "EXP" None) /\
  (get_experiment_id "20240131" "EXP" (Some "save_results"%string)
     = get_experiment_id "20240131" "EXP" (Some "save_results"%string) ->
   "save_results"%string = "save_results"%string).
Proof.
  destruct (experiment_id_names "20240131" "EXP" "save_results"
              "save_results") as (_ & _ & Hname & Hinj).
  split.
  - apply Hname. discriminate.
  - apply Hinj; discriminate.
Defined.

(** ** A silent signal, from the transform to the spectrogram *)

Section Silence.

Local Open Scope R_scope.

Lemma slice_In {A} (s : list A) (start stop : Z) (x : A) :
  In x (slice s start stop) -> In x s.
Proof.
  unfold slice. intros H.
  rewrite <- (firstn_skipn (Z.to_nat start) s). apply in_or_app. right.
  rewrite <- (firstn_skipn (Z.to_nat (stop - start))
                (skipn (Z.to_nat start) s)).
  apply in_or_app. now left.
Qed.

(** What apply_window returns for a recognised name: the products of the
    samples with a window of finite weights. *)
Lemma apply_window_products (frame : list float64) (window_type : string) :
  recognised window_type -> (2 <= length frame)%nat ->
  exists ws,
    apply_window frame window_type
      = Ok (map (fun p => fmul (fst p) (snd p)) (combine frame ws)) /\
    length ws = length frame /\
    Forall (fun v => exists w, v = Fin w /\ Rabs w <= 1) ws.
Proof.
  intros Hw Hlen.
  destruct (window_within_unit (Z.of_nat (length frame))) as (H1 & H2 & H3);
    [lia |].
  destruct (window_lengths (Z.of_nat (length frame))) as (L1 & L2 & L3).
  rewrite Nat2Z.id in L1, L2, L3.
  unfold apply_window, multiply.
  destruct Hw as [-> | [-> | ->]]; cbn [String.eqb Ascii.eqb Bool.eqb bind];
    [rewrite L1 | rewrite L2 | rewrite L3]; rewrite Nat.eqb_refl;
    eexists; (split; [reflexivity |]); auto.
Qed.

Lemma dft_of_zeros (zs : list R) (k : Z) :
  Forall (fun z => z = 0) zs -> dft_re zs k = 0 /\ dft_im zs k = 0.
Proof.
  intros Hz. rewrite Forall_forall in Hz. unfold dft_re, dft_im.
  split; apply Rsum_zero; intros [j v] Hin; cbn [fst snd];
    apply in_combine_r in Hin; rewrite (Hz v Hin); ring.
Qed.

(** The transform of a full frame of a silent signal is all 0+0j. *)
Lemma silent_frame_transform (signal : list float64)
    (window_size hop_length : Z) (window_type : string) (i : Z) :
  Forall (fun v => v = Fin 0) signal ->
  recognised window_type -> (2 <= window_size)%Z ->
  (0 <= i * hop_length)%Z ->
  (i * hop_length + window_size <= Z.of_nat (length signal))%Z ->
  exists row,
    frame_transform signal window_size hop_length window_type i = Ok row /\
    Forall (fun z => z = czero) row /\ row <> [].
Proof.
  intros Hsil Hw HW Hs He. unfold frame_transform.
  set (frame := slice signal (i * hop_length) (i * hop_length + window_size)).
  assert (Hlen : length frame = Z.to_nat window_size)
    by (apply slice_length; lia).
  assert (Hfz : Forall (fun v => v = Fin 0) frame).
  { rewrite Forall_forall in *. intros v Hv. apply Hsil.
    now apply slice_In in Hv. }
  destruct (apply_window_products frame window_type Hw)
    as (ws & -> & Hwl & Hws); [lia |].
  cbn [bind].
  set (windowed := map (fun p => fmul (fst p) (snd p)) (combine frame ws)).
  assert (Hwz : windowed = map Fin (repeat 0 (length windowed))).
  { rewrite map_repeat. apply Forall_eq_repeat.
    apply Forall_forall. intros v Hv. unfold windowed in Hv.
    apply in_map_iff in Hv. destruct Hv as ([a b] & <- & Hin).
    cbn [fst snd]. rewrite Forall_forall in Hfz, Hws.
    rewrite (Hfz a (in_combine_l _ _ _ _ Hin)).
    destruct (Hws b (in_combine_r _ _ _ _ Hin)) as (w & -> & _).
    simpl. f_equal. ring. }
  assert (Hwlen : length windowed = Z.to_nat window_size).
  { unfold windowed. rewrite length_map, length_combine. lia. }
  assert (Hzs : repeat 0 (length windowed) <> [])
    by (rewrite Hwlen; destruct (Z.to_nat window_size) eqn:E;
        [lia | discriminate]).
  unfold rfft. destruct (Z.ltb_spec (Z.of_nat (length windowed)) 1);
    [lia |].
  eexists. split; [reflexivity |]. split.
  - apply Forall_forall. intros z Hz.
    apply in_map_iff in Hz. destruct Hz as (k & <- & _).
    rewrite Hwz, (dft_bin_finite _ k Hzs).
    destruct (dft_of_zeros (repeat 0 (length windowed)) k) as (-> & ->);
      [| reflexivity].
    apply Forall_forall. intros z Hz. now apply repeat_spec in Hz.
  - unfold arange. rewrite range_pos; [discriminate |].
    assert (0 <= Z.of_nat (length windowed) / 2)%Z
      by (apply Z.div_pos; lia).
    lia.
Qed.

End Silence.

(** X22.  For a silent signal (every sample 0) that holds at least one
    window of at least two samples, parameters that pass the three
    checks, a recognised window, a sampling rate neither zero nor
    infinite and db_range >= 0, nothing fails from compute_stft to
    compute_spectrogram: every entry of the transform is 0+0j and every
    value of the spectrogram is 10*log10(eps). *)
Theorem silent_signal_spectrogram (signal : list float64)
    (sampling_rate : float64) (window_size hop_length : Z)
    (window_type : string) (db_range : float64) :
  Forall (fun v => v = Fin 0) signal ->
  2 <= window_size -> 0 < hop_length -> hop_length <= window_size ->
  window_size <= Z.of_nat (length signal) ->
  usable_rate sampling_rate -> recognised window_type ->
  fle (Fin 0) db_range ->
  exists times freqs m output,
    compute_stft signal sampling_rate window_size hop_length window_type
      = Ok (times, freqs, m) /\
    Forall (fun z => z = czero) (ravel m) /\
    compute_spectrogram times freqs m db_range = Ok output /\
    Forall (fun v => v = fmul (Fin 10) (flog10 eps)) (ravel output).
Proof.
  intros Hsil HW HH HHW HL Hsr Hwt Hdb.
  destruct (freqs_of_usable_rate sampling_rate window_size Hsr)
    as (d & freqs & Hd & Hfr & _); [lia |].
  destruct (compute_stft_factored signal sampling_rate window_size hop_length
              window_type d freqs) as (m & Hrun & Hs & Hl & Hrows);
    try assumption; [lia |].
  set (nw := 1 + (Z.of_nat (length signal) - window_size) / hop_length) in *.
  assert (Hnw : 1 <= nw).
  { subst nw.
    assert (0 <= (Z.of_nat (length signal) - window_size) / hop_length)
      by (apply Z.div_pos; lia).
    lia. }
  assert (Hrow : forall i, 0 <= i < nw ->
            exists row, nth_error (rows m) (Z.to_nat i) = Some row /\
                        Forall (fun z => z = czero) row /\ row <> []).
  { intros i Hi. destruct (Hrows i Hi) as (row & Hft & Hat).
    destruct (frame_in_signal signal window_size hop_length i HH HL Hi)
      as (Hs0 & He0).
    destruct (silent_frame_transform signal window_size hop_length
                window_type i Hsil Hwt HW Hs0 He0) as (row' & Hft' & Hz & Hn).
    rewrite Hft in Hft'. injection Hft' as <-. now exists row. }
  assert (Hzero : Forall (fun z => z = czero) (ravel m)).
  { unfold ravel. apply Forall_concat. apply Forall_forall. intros r Hr.
    apply In_nth_error in Hr. destruct Hr as (k & Hk).
    assert (Hkl : (k < length (rows m))%nat)
      by (apply nth_error_Some; congruence).
    destruct (Hrow (Z.of_nat k)) as (row & Hat & Hz & _); [lia |].
    rewrite Nat2Z.id in Hat. congruence. }
  assert (Hne : ravel m <> []).
  { destruct (Hrow 0) as (row & Hat & _ & Hn); [lia |].
    unfold ravel. destruct (rows m) as [| r rs]; [discriminate Hat |].
    simpl in Hat. injection Hat as ->. simpl.
    destruct row; [congruence | discriminate]. }
  assert (Hfin : finite_entries m).
  { eapply Forall_impl; [| exact Hzero]. simpl. intros z ->.
    split; exact I. }
  destruct (spectrogram_bounds_core
              (map (fun i => fdiv (of_Z (i * hop_length)) sampling_rate)
                   (arange nw))
              freqs m db_range Hne Hfin Hdb)
    as (p & ps & output & Hpw & Hspec & _ & Hall).
  assert (Hps : Forall (fun v => v = 0%R) (p :: ps)).
  { apply Forall_forall. intros v Hv.
    apply (in_map Fin) in Hv. rewrite <- Hpw in Hv.
    apply in_map_iff in Hv. destruct Hv as (z & Hz & Hin).
    rewrite Forall_forall in Hzero. rewrite (Hzero z Hin) in Hz.
    rewrite power_of_zero in Hz. now injection Hz. }
  rewrite (fold_Rmax_zeros p ps Hps), decibel_of_zero in Hall.
  eexists _, freqs, m, output. split; [exact Hrun |].
  split; [exact Hzero |]. split; [exact Hspec |].
  eapply Forall_impl; [| exact Hall]. cbv beta.
  intros v (r & -> & Hhi & Hlo & _). rewrite decibel_of_eps.
  f_equal. now apply Rle_antisym.
Qed.

Lemma silent_signal_spectrogram_witness :
  exists times freqs m output,
    compute_stft (repeat (Fin 0) 6) (Fin 1000) 4 2 "blackman"
      = Ok (times, freqs, m) /\
    Forall (fun z => z = czero) (ravel m) /\
    compute_spectrogram times freqs m (Fin 60) = Ok output /\
    Forall (fun v => v = fmul (Fin 10) (flog10 eps)) (ravel output).
Proof.
  apply (silent_signal_spectrogram (repeat (Fin 0) 6) (Fin 1000) 4 2
           "blackman" (Fin 60)); try (simpl; lia).
  - repeat constructor.
  - apply usable_rate_finite, IZR_1000_nonzero.
  - right; right. reflexivity.
  - simpl. lra.
Defined.
